(** * alfred-stackoverflow: the caching and query-refinement pipeline of [so.py]

    A shallow embedding of [src/so.py] (and of its packaged twin
    [src/stackexchange_search/so.py], which differs only where noted) together
    with the properties the specification states about it.

    Conventions.
    - A Python [str] is a list of Unicode code points, each an [N].
    - [bytes] is a list of octets, each an [N] below 256.
    - Code that can raise returns a [result]; code that touches the disk, the
      network or a subprocess runs in the state-and-error monad [M] over a
      [world]. *)

From Stdlib Require Import NArith ZArith QArith Qround List Ascii String Lia Permutation Sorted.
From stdpp Require Import gmap list.
Import ListNotations.

Local Open Scope N_scope.

(** ** Strings *)

Abbreviation str := (list N) (only parsing).
Abbreviation bytes := (list N) (only parsing).

(** A string literal of the source, as code points (ASCII literals only). *)
Fixpoint lit (s : string) : str :=
  match s with
  | EmptyString => []
  | String c s' => N_of_ascii c :: lit s'
  end.

(** [sep.join(xs)] *)
Fixpoint join (sep : str) (xs : list str) : str :=
  match xs with
  | [] => []
  | [x] => x
  | x :: xs' => x ++ sep ++ join sep xs'
  end.

(** ** Exceptions *)

Inductive exn : Type :=
  | UnicodeEncodeError (c : N)        (* str.encode on a lone surrogate *)
  | KeyError (key : str)              (* dict[key] on an absent key *)
  | CalledProcessError (returncode : Z)
  | UnboundLocalError (name : string)
  | FileNotFoundError (path : str)
  | IsADirectoryError (path : str)
  | JSONDecodeError
  | BadGzipFile
  | EOFError
  | OtherError (type_name : string) (message : string).

Inductive result (A : Type) : Type :=
  | Ok (a : A)
  | Raise (e : exn).
Arguments Ok {A} a.
Arguments Raise {A} e.

(** ** [str.encode('utf-8')] *)

Definition is_surrogate (c : N) : bool := (0xD800 <=? c) && (c <? 0xE000).

Definition utf8_char (c : N) : result bytes :=
  if c <? 0x80 then Ok [c]
  else if c <? 0x800 then Ok [0xC0 + c / 64; 0x80 + c mod 64]
  else if c <? 0x10000 then
    if is_surrogate c then Raise (UnicodeEncodeError c)
    else Ok [0xE0 + c / 4096; 0x80 + (c / 64) mod 64; 0x80 + c mod 64]
  else if c <? 0x110000 then
    Ok [0xF0 + c / 262144; 0x80 + (c / 4096) mod 64;
        0x80 + (c / 64) mod 64; 0x80 + c mod 64]
  else Raise (UnicodeEncodeError c).

Fixpoint encode_utf8 (s : str) : result bytes :=
  match s with
  | [] => Ok []
  | c :: s' =>
      match utf8_char c with
      | Raise e => Raise e
      | Ok bs =>
          match encode_utf8 s' with
          | Raise e => Raise e
          | Ok rest => Ok (bs ++ rest)
          end
      end
  end.

(** The code points a Python [str] can hold and UTF-8 can encode. *)
Definition encodable (c : N) : Prop := c < 0x110000 /\ is_surrogate c = false.

(** ** [hashlib.sha1(...).hexdigest()] (FIPS 180-4) *)

Module SHA1.

Definition mask32 : N := 0xFFFFFFFF.
Definition add32 (a b : N) : N := N.land (a + b) mask32.
Definition rotl32 (n x : N) : N :=
  N.lor (N.land (N.shiftl x n) mask32) (N.shiftr (N.land x mask32) (32 - n)).
Definition not32 (x : N) : N := N.lxor (N.land x mask32) mask32.

Definition f (t : nat) (b c d : N) : N :=
  if (t <? 20)%nat then N.lor (N.land b c) (N.land (not32 b) d)
  else if (t <? 40)%nat then N.lxor (N.lxor b c) d
  else if (t <? 60)%nat then
    N.lor (N.lor (N.land b c) (N.land b d)) (N.land c d)
  else N.lxor (N.lxor b c) d.

Definition K (t : nat) : N :=
  if (t <? 20)%nat then 0x5A827999
  else if (t <? 40)%nat then 0x6ED9EBA1
  else if (t <? 60)%nat then 0x8F1BBCDC
  else 0xCA62C1D6.

(** Big-endian bytes of [x], [n] of them. *)
Fixpoint be_bytes (n : nat) (x : N) : bytes :=
  match n with
  | O => []
  | S n' => N.land (N.shiftr x (8 * N.of_nat n')) 0xFF :: be_bytes n' x
  end.

Definition pad (msg : bytes) : bytes :=
  let len := List.length msg in
  let zeros := ((55 + 64 - len mod 64) mod 64)%nat in
  msg ++ [0x80] ++ repeat 0 zeros ++ be_bytes 8 (8 * N.of_nat len).

Fixpoint chunks (fuel : nat) (bs : bytes) : list bytes :=
  match fuel, bs with
  | O, _ | _, [] => []
  | S fuel', _ => firstn 64 bs :: chunks fuel' (skipn 64 bs)
  end.

Fixpoint be_words (fuel : nat) (bs : bytes) : list N :=
  match fuel, bs with
  | S fuel', b0 :: b1 :: b2 :: b3 :: rest =>
      (N.shiftl b0 24 + N.shiftl b1 16 + N.shiftl b2 8 + b3)
        :: be_words fuel' rest
  | _, _ => []
  end.

Definition w_at (w : list N) (i : nat) : N := nth i w 0.

(** Extends the message schedule by [n] words. *)
Fixpoint schedule (n : nat) (w : list N) : list N :=
  match n with
  | O => w
  | S n' =>
      let t := List.length w in
      schedule n'
        (w ++ [rotl32 1 (N.lxor (N.lxor (N.lxor (w_at w (t - 3)) (w_at w (t - 8)))
                                        (w_at w (t - 14))) (w_at w (t - 16)))])
  end.

Record state := St { ha : N; hb : N; hc : N; hd : N; he : N }.

Definition init : state :=
  St 0x67452301 0xEFCDAB89 0x98BADCFE 0x10325476 0xC3D2E1F0.

Fixpoint rounds (t : nat) (ws : list N) (s : state) : state :=
  match ws with
  | [] => s
  | w :: ws' =>
      let tmp := add32 (add32 (add32 (add32 (rotl32 5 (ha s))
                   (f t (hb s) (hc s) (hd s))) (he s)) (K t)) w in
      rounds (S t) ws' (St tmp (ha s) (rotl32 30 (hb s)) (hc s) (hd s))
  end.

Definition compress (h : state) (block : bytes) : state :=
  let w := schedule 64 (be_words 16 block) in
  let r := rounds 0 w h in
  St (add32 (ha h) (ha r)) (add32 (hb h) (hb r)) (add32 (hc h) (hc r))
     (add32 (hd h) (hd r)) (add32 (he h) (he r)).

Definition digest (msg : bytes) : state :=
  let p := pad msg in
  fold_left compress (chunks (List.length p) p) init.

Definition hex_digit (n : N) : N := if n <? 10 then 48 + n else 87 + n.

Definition hex8 (w : N) : str :=
  List.map (fun k => hex_digit (N.land (N.shiftr w (4 * k)) 0xF))
    [7; 6; 5; 4; 3; 2; 1; 0].

Definition hexdigest (msg : bytes) : str :=
  let s := digest msg in
  hex8 (ha s) ++ hex8 (hb s) ++ hex8 (hc s) ++ hex8 (hd s) ++ hex8 (he s).

End SHA1.

(** ** Data model (named tuples of the source) *)

Record Answer := mkAnswer {
  title : str;
  link : str;
  tags : list str;
  is_answered : bool;
  score : Z;
}.

Record Site := mkSite {
  id_ : str;
  name : str;
  audience : str;
  icon_url : str;
  is_meta : bool;
}.

Record QuotaInfo := mkQuotaInfo { quota_remaining : Z }.

(** The fields of [EnvParams] the pipeline reads. An unset credential of the
    packaged revision ([None]) is the empty string. *)
Record EnvParams := mkEnvParams {
  cache_max_age : Z;
  ignore_meta_sites : bool;
  result_count : Z;
  site_id : str;
  site_name : str;
  api_key : str;
  client_id : str;
  cachedir : str;
}.

(** ** String methods used by the source *)

(** [str.isspace] on one code point (the Unicode White_Space set CPython uses,
    plus the separators 0x1C..0x1F). *)
Definition isspace (c : N) : bool :=
  ((9 <=? c) && (c <=? 13)) || ((28 <=? c) && (c <=? 32))
  || (c =? 0x85) || (c =? 0xA0) || (c =? 0x1680)
  || ((0x2000 <=? c) && (c <=? 0x200A))
  || (c =? 0x2028) || (c =? 0x2029) || (c =? 0x202F) || (c =? 0x205F)
  || (c =? 0x3000).

Fixpoint lstrip (s : str) : str :=
  match s with
  | c :: s' => if isspace c then lstrip s' else s
  | [] => []
  end.

Definition rstrip (s : str) : str := rev (lstrip (rev s)).

(** [s.strip()] *)
Definition strip (s : str) : str := rstrip (lstrip s).

(** [s.startswith(p)] *)
Fixpoint startswith (p s : str) : bool :=
  match p, s with
  | [], _ => true
  | _ :: _, [] => false
  | a :: p', b :: s' => (a =? b) && startswith p' s'
  end.

(** [s.endswith(p)] *)
Definition endswith (p s : str) : bool := startswith (rev p) (rev s).

(** [s.find(sub)]: the lowest index at which [sub] occurs. *)
Fixpoint find (sub s : str) : option nat :=
  if startswith sub s then Some O
  else match s with
       | [] => None
       | _ :: s' => option_map S (find sub s')
       end.

(** [sub in s] *)
Definition contains (sub s : str) : bool :=
  match find sub s with Some _ => true | None => false end.

(** [s.partition(sep)] *)
Definition partition (sep s : str) : str * str * str :=
  match find sep s with
  | Some i => (firstn i s, sep, skipn (i + List.length sep) s)
  | None => (s, [], [])
  end.

(** [s.split()]: maximal runs of non-whitespace. [cur] is the run being read. *)
Fixpoint split_from (cur s : str) : list str :=
  match s with
  | [] => match cur with [] => [] | _ => [cur] end
  | c :: s' =>
      if isspace c then
        match cur with
        | [] => split_from [] s'
        | _ => cur :: split_from [] s'
        end
      else split_from (cur ++ [c]) s'
  end.

Definition split (s : str) : list str := split_from [] s.

(** ** [parse_search_query] *)

(** The loop body of lines 420-424: one word goes to [tags] or [query_words]. *)
Definition classify (acc : list str * list str) (w : str) : list str * list str :=
  let '(query_words, tags) := acc in
  if startswith (lit "#") w then (query_words, tags ++ [tl w])
  else (query_words ++ [w], tags).

Definition parse_search_query (string : str) : str * list str * str :=
  let string := strip string in
  let '(rest, additional_query) :=
    if contains (lit "//") string then
      let '(rest, _, additional_query) := partition (lit "//") string in
      (rest, additional_query)
    else if endswith (lit "/") string then (removelast string, [])
    else (string, []) in
  let words := split rest in
  let '(query_words, tags) := fold_left classify words ([], []) in
  let query := join (lit " ") query_words in
  (query, tags, additional_query).

(** ** [CacheDirectory] *)

(** [p / name] of pathlib, for a [name] that is one relative component: no
    ['/'] in it, and neither empty nor ["."]. For such names pathlib only
    appends; other names it normalises, which is not modelled. *)
Definition path_join (p name : str) : str := p ++ lit "/" ++ name.

Record CacheDirectory := mkCacheDirectory {
  cd_cachedir : str;
  key_len : nat;
  answers_dir : str;
  icons_dir : str;
}.

(** The fields [__init__] sets. Its two [mkdir] calls create [answers_dir] and
    [icons_dir]; the file system below is a flat map from paths to nodes, so
    they leave no trace in it. *)
Definition new_CacheDirectory (env : EnvParams) : CacheDirectory :=
  {| cd_cachedir := cachedir env;
     key_len := 12;
     answers_dir := path_join (cachedir env) (lit "answers");
     icons_dir := path_join (cachedir env) (lit "icons") |}.

(** The string the digest is taken of: ['_'.join(sbuf)]. *)
Definition sbuf_joined (site_id query : str) (tags : list str) : str :=
  join (lit "_") ([site_id; query] ++ tags).

(** [h[:self.key_len]] *)
Definition answers_key (cd : CacheDirectory) (site_id query : str)
    (tags : list str) : result str :=
  match encode_utf8 (sbuf_joined site_id query tags) with
  | Raise e => Raise e
  | Ok bs => Ok (firstn (key_len cd) (SHA1.hexdigest bs))
  end.

Definition get_answers_cache (cd : CacheDirectory) (site_id query : str)
    (tags : list str) : result str :=
  match answers_key cd site_id query tags with
  | Raise e => Raise e
  | Ok k => Ok (path_join (answers_dir cd) (k ++ lit ".json.gz"))
  end.

Definition get_site_icon_cache (cd : CacheDirectory) (site_id : str) : str :=
  path_join (icons_dir cd) (site_id ++ lit ".png").

Definition get_sites_cache (cd : CacheDirectory) : str :=
  path_join (cd_cachedir cd) (lit "all_sites.json").

(** ** binary64 arithmetic: [time.time() - os.path.getmtime(path) >= seconds] *)

(** Both times are finite floats, so each is a rational; the difference the
    code computes is the exact difference rounded to binary64. *)

Module Float64.

Local Open Scope Q_scope.

(** The result of an operation on finite floats: a finite value or an
    infinity. *)
Inductive float : Type :=
  | Finite (q : Q)
  | Inf (negative : bool).

Definition pow2 (e : Z) : Q := Qpower 2 e.

(** [floor (log2 x)] for [x > 0]. *)
Definition ilog2 (x : Q) : Z :=
  let g := (Z.log2 (Qnum x) - Z.log2 (Zpos (Qden x)))%Z in
  if Qle_bool (pow2 g) x then g else (g - 1)%Z.

(** The integer nearest to [m >= 0], ties to the even one. *)
Definition round_half_even (m : Q) : Z :=
  let fl := Qfloor m in
  match Qcompare (2 * (m - inject_Z fl)) 1 with
  | Lt => fl
  | Gt => (fl + 1)%Z
  | Eq => if Z.even fl then fl else (fl + 1)%Z
  end.

(** The nearest multiple of the unit in the last place of [x > 0]: 53
    significant bits, exponents from -1074. *)
Definition round_pos (x : Q) : Q :=
  let ulp := pow2 (Z.max (ilog2 x - 52) (-1074)) in
  Qred (inject_Z (round_half_even (x / ulp)) * ulp).

(** Round to nearest, ties to even; beyond the largest float, infinity. *)
Definition round (x : Q) : float :=
  match Qcompare x 0 with
  | Eq => Finite 0
  | Gt => let r := round_pos x in
          if Qle_bool (pow2 1024) r then Inf false else Finite r
  | Lt => let r := round_pos (- x) in
          if Qle_bool (pow2 1024) r then Inf true else Finite (- r)
  end.

(** [a - b] on two finite floats: the exact difference, rounded. *)
Definition sub (a b : Q) : float := round (a - b).

(** [f >= n] for a float and an [int]: Python compares the exact values. *)
Definition ge_int (f : float) (n : Z) : bool :=
  match f with
  | Finite q => Qle_bool (inject_Z n) q
  | Inf negative => negb negative
  end.

End Float64.

(** ** The world: file system, clock, network, subprocess *)

(** What is on disk at a path. The bytes of a cache file are abstracted by what
    the loader makes of them: [WellFormed rows] when gunzip, [json.load] and
    [starmap] succeed with [rows], [Malformed e] when they raise [e]. *)
Inductive content (A : Type) : Type :=
  | WellFormed (rows : list A)
  | Malformed (e : exn).
Arguments WellFormed {A} rows.
Arguments Malformed {A} e.

(** A file of zero bytes: [json.load] finds no value in it. *)
Definition empty_content {A : Type} : content A := Malformed JSONDecodeError.

Inductive node (A : Type) : Type :=
  | File (mtime : Q) (c : content A)
  | Dir (mtime : Q).
Arguments File {A} mtime c.
Arguments Dir {A} mtime.

Inductive param : Type :=
  | PInt (n : Z)
  | PStr (s : str).

(** The JSON object of one search hit, and of the whole response. A hit is
    taken with its five keys present and of the types the API documents; hits
    that lack one, or whose score [int] refuses, make the parsing loop raise
    and are outside this model. Of the response, a key that may be missing is
    an [option]. *)
Record raw_item := mkRawItem {
  raw_title : str;
  raw_link : str;
  raw_tags : list str;
  raw_is_answered : bool;
  raw_score : Z;
}.

Record response := mkResponse {
  resp_items : option (list raw_item);
  resp_quota_remaining : option Z;
}.

Inductive completed_process : Type :=
  | Exited (returncode : Z) (stdout : str)
  | NotStarted (e : exn).

(** What the process does not compute itself. Times are rationals: every
    finite float is one. [fzf] gives [resp.stdout], the output as
    [subprocess.run(text=True)] hands it over (line ends already translated),
    not the bytes the process printed. *)
Record Collaborators := mkCollaborators {
  clock : Q;                                       (* time.time() *)
  http_get_json : string -> list (string * param) -> result response;
                                                   (* requests.get(..).json() *)
  fzf : str -> str -> completed_process;           (* fzf --filter query < input *)
  html_unescape : str -> str;                      (* html.unescape *)
  file_time : Q;                 (* st_mtime the file system gives a file written now *)
}.

Inductive event : Type :=
  | EvRequest (url : string) (params : list (string * param))
  | EvOpenWrite (path : str)
  | EvLoad (path : str)
  | EvFzf (query : str) (input : str).

Record world (A : Type) := mkWorld {
  fs : gmap (list N) (node A);
  log : list event;
}.
Arguments mkWorld {A} fs log.
Arguments fs {A} w.
Arguments log {A} w.

(** State and exceptions. A raise keeps the effects made so far. *)
Definition M (S A : Type) : Type := S -> result A * S.

Definition ret {S A : Type} (a : A) : M S A := fun w => (Ok a, w).
Definition raise {S A : Type} (e : exn) : M S A := fun w => (Raise e, w).
Definition bind {S A B : Type} (m : M S A) (k : A -> M S B) : M S B :=
  fun w => match m w with
           | (Ok a, w') => k a w'
           | (Raise e, w') => (Raise e, w')
           end.
Definition lift {S A : Type} (r : result A) : M S A := fun w => (r, w).

Notation "'let*' x ':=' m 'in' k" := (bind m (fun x => k))
  (at level 10, x pattern, m at level 100, k at level 200).

Definition emit {A : Type} (ev : event) : M (world A) unit :=
  fun w => (Ok tt, mkWorld (fs w) (log w ++ [ev])).

Definition is_file_in {A : Type} (m : gmap (list N) (node A)) (path : str) : bool :=
  match m !! path with
  | Some (File _ _) => true
  | _ => false
  end.

(** [path.is_file()] *)
Definition is_file {A : Type} (path : str) : M (world A) bool :=
  fun w => (Ok (is_file_in (fs w) path), w).

(** [os.path.getmtime(path)] *)
Definition getmtime {A : Type} (path : str) : M (world A) Q :=
  fun w => match fs w !! path with
           | Some (File m _) | Some (Dir m) => (Ok m, w)
           | None => (Raise (FileNotFoundError path), w)
           end.

(** [older_than]: [time.time() - os.path.getmtime(path) >= seconds] *)
Definition older_than {A : Type} (K : Collaborators) (path : str) (seconds : Z)
    : M (world A) bool :=
  let* mtime := getmtime path in
  ret (Float64.ge_int (Float64.sub (clock K) mtime) seconds).

(** ** Cache files *)

(** The steps a write through [open(path, 'w')] / [gzip.open(path, 'wb')]
    makes on the destination. Opening for writing truncates the file in place;
    the payload is complete on disk once the [with] block has closed it. The
    source writes through buffers, so between these two steps the file can also
    be on disk partly written; the model keeps the two ends, the truncation
    and the completed file. The completed file is [WellFormed rows], the file
    that loads as [rows]: that json and gzip give back what they were given
    is taken for granted, and no property below reads back a completed file
    that the model wrote. *)
Inductive fs_op (A : Type) : Type :=
  | OpenTruncate (path : str)
  | WriteClose (path : str) (rows : list A).
Arguments OpenTruncate {A} path.
Arguments WriteClose {A} path rows.

Definition apply_op {A : Type} (K : Collaborators) (op : fs_op A)
    (m : gmap (list N) (node A)) : result (gmap (list N) (node A)) :=
  match op with
  | OpenTruncate path =>
      match m !! path with
      | Some (Dir _) => Raise (IsADirectoryError path)
      | _ => Ok (<[path := File (file_time K) empty_content]> m)
      end
  | WriteClose path rows => Ok (<[path := File (file_time K) (WellFormed rows)]> m)
  end.

Definition run_op {A : Type} (K : Collaborators) (op : fs_op A) : M (world A) unit :=
  fun w => match apply_op K op (fs w) with
           | Ok m' => (Ok tt, mkWorld m' (log w))
           | Raise e => (Raise e, w)
           end.

Fixpoint run_ops {A : Type} (K : Collaborators) (ops : list (fs_op A))
    : M (world A) unit :=
  match ops with
  | [] => ret tt
  | op :: ops' => let* _ := run_op K op in run_ops K ops'
  end.

(** The operations of one dump, in order. Both dump functions have this shape:
    open the destination itself for writing, write the whole list, close. *)
Definition dump_ops {A : Type} (rows : list A) (path : str) : list (fs_op A) :=
  [OpenTruncate path; WriteClose path rows].

Definition dump_to_cache {A : Type} (K : Collaborators) (rows : list A)
    (path : str) : M (world A) unit :=
  let* _ := emit (EvOpenWrite path) in
  run_ops K (dump_ops rows path).

Definition dump_answers_to_cache (K : Collaborators) (answers : list Answer)
    (path : str) : M (world Answer) unit :=
  dump_to_cache K answers path.

Definition dump_sites_to_cache (K : Collaborators) (sites : list Site)
    (path : str) : M (world Site) unit :=
  dump_to_cache K sites path.

Definition load_from_cache {A : Type} (path : str) : M (world A) (list A) :=
  let* _ := emit (EvLoad path) in
  fun w => match fs w !! path with
           | Some (File _ (WellFormed rows)) => (Ok rows, w)
           | Some (File _ (Malformed e)) => (Raise e, w)
           | Some (Dir _) => (Raise (IsADirectoryError path), w)
           | None => (Raise (FileNotFoundError path), w)
           end.

Definition load_answers_from_cache (path : str) : M (world Answer) (list Answer) :=
  load_from_cache path.

Definition load_sites_from_cache (path : str) : M (world Site) (list Site) :=
  load_from_cache path.

(** ** [list.sort(key=..., reverse=True)] *)

Section Sort.
Context {A : Type} (key : A -> Z).

(** Puts [x] in front of a list sorted by descending key, after the entries
    with a larger key and before those with an equal or smaller one. *)
Fixpoint insert_desc (x : A) (l : list A) : list A :=
  match l with
  | [] => [x]
  | y :: l' => if (key x <? key y)%Z then y :: insert_desc x l' else x :: y :: l'
  end.

(** A stable sort by descending key, as [reverse=True] is. *)
Definition sort_desc (l : list A) : list A := fold_right insert_desc [] l.
End Sort.

(** ** [request_parse_search_api] *)

Inductive revision : Type :=
  | Script      (* src/so.py *)
  | Packaged.   (* src/stackexchange_search/so.py *)

Definition truthy (s : str) : bool := match s with [] => false | _ => true end.

Definition search_params (rev : revision) (query : str) (tags : list str)
    (site_id : str) (env : EnvParams) : list (string * param) :=
  [("page"%string, PInt 1); ("pagesize"%string, PInt (result_count env));
   ("order"%string, PStr (lit "desc")); ("sort"%string, PStr (lit "relevance"));
   ("site"%string, PStr site_id)]
  ++ (match rev with
      | Script => [("key"%string, PStr (api_key env));
                   ("client_id"%string, PStr (client_id env))]
      | Packaged =>
          (if truthy (api_key env) then [("key"%string, PStr (api_key env))] else [])
          ++ (if truthy (client_id env)
              then [("client_id"%string, PStr (client_id env))] else [])
      end)
  ++ (if truthy query then [("q"%string, PStr query)] else [])
  ++ (match tags with
      | [] => []
      | _ => [("tagged"%string, PStr (join (lit ";") tags))]
      end).

Definition parse_item (K : Collaborators) (item : raw_item) : Answer :=
  mkAnswer (html_unescape K (raw_title item)) (raw_link item) (raw_tags item)
           (raw_is_answered item) (raw_score item).

Definition get_key {S A : Type} (key : string) (v : option A) : M S A :=
  match v with
  | Some a => ret a
  | None => raise (KeyError (lit key))
  end.

Definition search_url : string := "https://api.stackexchange.com/2.2/search/advanced".

Definition request_parse_search_api (rev : revision) (K : Collaborators)
    (query : str) (tags : list str) (site_id : str) (env : EnvParams)
    : M (world Answer) (list Answer * QuotaInfo) :=
  let params := search_params rev query tags site_id env in
  let* _ := emit (EvRequest search_url params) in
  let* resp := lift (http_get_json K search_url params) in
  let* items := get_key "items" (resp_items resp) in
  let answers := List.map (parse_item K) items in
  let answers := sort_desc (fun a => Z.b2z (is_answered a)) answers in
  let* q := get_key "quota_remaining" (resp_quota_remaining resp) in
  ret (answers, mkQuotaInfo q).

(** ** [request_fzf] *)

(** [re.findall] with the pattern of line 204 (any run without a newline,
    then a newline): the lines of [s] that end in a newline. [cur] is the line
    being read. *)
Fixpoint lines_from (cur s : str) : list str :=
  match s with
  | [] => []
  | c :: s' => if c =? 10 then cur :: lines_from [] s' else lines_from (cur ++ [c]) s'
  end.

Definition findall_lines (s : str) : list str := lines_from [] s.

(** The [input] of line 197: every candidate followed by a newline. *)
Definition fzf_input (candidates : list str) : str :=
  concat (List.map (fun c => c ++ [10]) candidates).

(** [stdout] is [resp.stdout] as [re.findall] receives it. With [check=True] a
    non-zero exit raises [CalledProcessError]. Exit status 1
    (no match) gives the empty list. On any other status the script falls out
    of the handler to a [return] that reads the unassigned [resp]; the packaged
    revision re-raises. *)
Definition request_fzf {A : Type} (rev : revision) (K : Collaborators)
    (query : str) (candidates : list str) : M (world A) (list str) :=
  let input := fzf_input candidates in
  let* _ := emit (EvFzf query input) in
  match fzf K query input with
  | NotStarted e => raise e
  | Exited rc stdout =>
      if (rc =? 0)%Z then ret (findall_lines stdout)
      else if (rc =? 1)%Z then ret []
      else match rev with
           | Script => raise (UnboundLocalError "resp")
           | Packaged => raise (CalledProcessError rc)
           end
  end.

(** ** A [dict] with [str] keys: insertion-ordered, one entry per key *)

Section Dict.
Context {V : Type}.

(** [d[k] = v]: a present key keeps its place and takes the new value. *)
Fixpoint dict_set (d : list (list N * V)) (k : str) (v : V) : list (list N * V) :=
  match d with
  | [] => [(k, v)]
  | (k', v') :: d' =>
      if bool_decide (k' = k) then (k', v) :: d' else (k', v') :: dict_set d' k v
  end.

(** [d[k]] *)
Fixpoint dict_get (d : list (list N * V)) (k : str) : result V :=
  match d with
  | [] => Raise (KeyError k)
  | (k', v') :: d' => if bool_decide (k' = k) then Ok v' else dict_get d' k
  end.

(** [list(d)] *)
Definition dict_keys (d : list (list N * V)) : list str := List.map fst d.

(** [{key(a): a for a in l}] *)
Definition dict_by (key : V -> str) (l : list V) : list (list N * V) :=
  fold_left (fun d a => dict_set d (key a) a) l [].

(** [[d[k] for k in ks]] *)
Fixpoint dict_get_all (d : list (list N * V)) (ks : list str) : result (list V) :=
  match ks with
  | [] => Ok []
  | k :: ks' =>
      match dict_get d k with
      | Raise e => Raise e
      | Ok v => match dict_get_all d ks' with
                | Raise e => Raise e
                | Ok vs => Ok (v :: vs)
                end
      end
  end.
End Dict.

(** ** [do_search] *)

(** The dicts [do_search] and [response_written] put in ['items']. *)
Inductive item : Type :=
  | ErrorItem (e : exn)                       (* 'Error occurs: <type>' *)
  | QuotaWarning (quota_remaining : Z)        (* 'Remaining quota less than 10: <n>!' *)
  | AnswerItem (a : Answer) (icon_path : str) (* title, tags, link of [a] *)
  | NoAnswerFound.                            (* 'No answer found' *)

(** Lines 446-449: ask the remote, keep its quota, store the answers. *)
Definition fetch_branch (rev : revision) (K : Collaborators) (env : EnvParams)
    (query : str) (tags : list str) (answers_path : str)
    : M (world Answer) (list Answer * Z) :=
  let* (answers, qi) := request_parse_search_api rev K query tags (site_id env) env in
  let quota_remaining := quota_remaining qi in
  let* _ := dump_answers_to_cache K answers answers_path in
  ret (answers, quota_remaining).

(** Lines 451-453: read the cache file; the quota is a large constant. *)
Definition load_branch (answers_path : str) : M (world Answer) (list Answer * Z) :=
  let* answers := load_answers_from_cache answers_path in
  ret (answers, 9999999%Z).

(** Lines 444-445: [not answers_path.is_file() or older_than(...)]. *)
Definition needs_fetch (K : Collaborators) (env : EnvParams) (answers_path : str)
    : M (world Answer) bool :=
  let* present := is_file answers_path in
  if negb present then ret true
  else older_than K answers_path (cache_max_age env).

(** Lines 443-453. *)
Definition resolve_answers (rev : revision) (K : Collaborators)
    (cd : CacheDirectory) (env : EnvParams) (query : str) (tags : list str)
    : M (world Answer) (list Answer * Z) :=
  let* answers_path := lift (get_answers_cache cd (site_id env) query tags) in
  let* stale := needs_fetch K env answers_path in
  if stale then fetch_branch rev K env query tags answers_path
  else load_branch answers_path.

(** Lines 454-457. *)
Definition narrow (rev : revision) (K : Collaborators) (additional_query : str)
    (answers : list Answer) : M (world Answer) (list Answer) :=
  if truthy additional_query then
    let title_to_answers := dict_by title answers in
    let* filtered_titles :=
      request_fzf rev K additional_query (dict_keys title_to_answers) in
    lift (dict_get_all title_to_answers filtered_titles)
  else ret answers.

(** Lines 470-490: one item per answer, with the site icon if it is cached. *)
Definition answer_item (cd : CacheDirectory) (env : EnvParams)
    (m : gmap (list N) (node Answer)) (a : Answer) : item :=
  let icon_path := get_site_icon_cache cd (site_id env) in
  AnswerItem a (if is_file_in m icon_path then icon_path else lit "icon.png").

(** Lines 459-497. *)
Definition render (cd : CacheDirectory) (env : EnvParams) (quota_remaining : Z)
    (answers : list Answer) : M (world Answer) (list item) :=
  fun w =>
    let items := if (quota_remaining <? 10)%Z then [QuotaWarning quota_remaining] else [] in
    let items := items ++ List.map (answer_item cd env (fs w)) answers in
    let items := match answers with [] => items ++ [NoAnswerFound] | _ => items end in
    (Ok items, w).

(** The function under the decorator. *)
Definition do_search_body (rev : revision) (K : Collaborators)
    (cd : CacheDirectory) (env : EnvParams) (query : str) (tags : list str)
    (additional_query : str) : M (world Answer) (list item) :=
  let* (answers, quota_remaining) := resolve_answers rev K cd env query tags in
  let* answers := narrow rev K additional_query answers in
  render cd env quota_remaining answers.

(** [response_written]: what is printed as ['items']; an exception becomes one
    error item. *)
Definition response_written {S : Type} (func : M S (list item)) : S -> list item * S :=
  fun w => match func w with
           | (Ok items, w') => (items, w')
           | (Raise err, w') => ([ErrorItem err], w')
           end.

Definition do_search (rev : revision) (K : Collaborators) (cd : CacheDirectory)
    (env : EnvParams) (query : str) (tags : list str) (additional_query : str)
    : world Answer -> list item * world Answer :=
  response_written (do_search_body rev K cd env query tags additional_query).

(** ** [do_sites] *)

(** The dicts [do_sites] and its decorator put in ['items']. *)
Inductive site_item : Type :=
  | SiteErrorItem (e : exn)                    (* 'Error occurs: <type>' *)
  | SitesNotCollected                          (* 'Sites not collected yet' *)
  | SiteItem (s : Site) (icon_path : str)      (* name, audience, id of [s] *)
  | NoMatchingSites.                           (* 'No matching sites' *)

(** Lines 368-396: one item per site, with its icon if it is cached. *)
Definition site_entry (cd : CacheDirectory) (m : gmap (list N) (node Site))
    (s : Site) : site_item :=
  let icon_path := get_site_icon_cache cd (id_ s) in
  SiteItem s (if is_file_in m icon_path then icon_path else lit "icon.png").

(** The function under the decorator, lines 338-403. *)
Definition do_sites_body (rev : revision) (K : Collaborators) (cd : CacheDirectory)
    (env : EnvParams) (query : str) : M (world Site) (list site_item) :=
  let sites_path := get_sites_cache cd in
  let* present := is_file sites_path in
  let* sites := (if present then load_sites_from_cache sites_path else ret []) in
  match sites with
  | [] => ret [SitesNotCollected]
  | _ =>
      let sites :=
        if ignore_meta_sites env then List.filter (fun s => negb (is_meta s)) sites
        else sites in
      let name_to_sites := dict_by name sites in
      let* sites :=
        (if truthy query then
           let* filtered_names := request_fzf rev K query (dict_keys name_to_sites) in
           lift (dict_get_all name_to_sites filtered_names)
         else ret sites) in
      fun w =>
        let items := List.map (site_entry cd (fs w)) sites in
        let items := match items with [] => [NoMatchingSites] | _ => items end in
        (Ok items, w)
  end.

(** The decorator, for the items of [do_sites]. *)
Definition sites_response_written {S : Type} (func : M S (list site_item))
    : S -> list site_item * S :=
  fun w => match func w with
           | (Ok items, w') => (items, w')
           | (Raise err, w') => ([SiteErrorItem err], w')
           end.

Definition do_sites (rev : revision) (K : Collaborators) (cd : CacheDirectory)
    (env : EnvParams) (query : str) : world Site -> list site_item * world Site :=
  sites_response_written (do_sites_body rev K cd env query).

(** ** [request_parse_sites_api] *)

(** The JSON object of one site, and of one page of the sites listing. *)
Record raw_site := mkRawSite {
  rs_api_site_parameter : str;
  rs_name : str;
  rs_audience : str;
  rs_icon_url : str;
  rs_site_state : str;
  rs_site_type : str;
}.

Record sites_response := mkSitesResponse {
  sr_items : option (list raw_site);
  sr_has_more : option bool;
}.

Definition sites_url : string := "https://api.stackexchange.com/2.2/sites".

Definition sites_params (rev : revision) (page : Z) (env : EnvParams)
    : list (string * param) :=
  [("page"%string, PInt page); ("pagesize"%string, PInt 100)]
  ++ match rev with
     | Script => [("key"%string, PStr (api_key env));
                  ("client_id"%string, PStr (client_id env))]
     | Packaged =>
         (if truthy (api_key env) then [("key"%string, PStr (api_key env))] else [])
         ++ (if truthy (client_id env)
             then [("client_id"%string, PStr (client_id env))] else [])
     end.

Definition is_closed_beta (item : raw_site) : bool :=
  bool_decide (rs_site_state item = lit "closed_beta").

Definition parse_site (K : Collaborators) (item : raw_site) : Site :=
  mkSite (rs_api_site_parameter item) (html_unescape K (rs_name item))
         (rs_audience item) (rs_icon_url item)
         (bool_decide (rs_site_type item = lit "meta_site")).

(** The [for] loop of lines 175-187 over one page: closed-beta sites are
    skipped, the others appended. *)
Definition append_page (K : Collaborators) (sites : list Site) (items : list raw_site)
    : list Site :=
  fold_left (fun sites item =>
               if is_closed_beta item then sites else sites ++ [parse_site K item])
            items sites.

(** The [while has_more] loop of lines 163-190. The loop has no bound of its
    own; [fuel] bounds the pages read, and [None] is the loop still running
    when the fuel is spent. [get] is [requests.get(url, params).json()]. *)
Fixpoint sites_pages (fuel : nat) (rev : revision) (K : Collaborators)
    (get : list (string * param) -> result sites_response) (env : EnvParams)
    (page : Z) (sites : list Site) : M (world Site) (option (list Site)) :=
  match fuel with
  | O => ret None
  | S fuel' =>
      let params := sites_params rev page env in
      let* _ := emit (EvRequest sites_url params) in
      let* resp := lift (get params) in
      let* items := get_key "items" (sr_items resp) in
      let sites := append_page K sites items in
      let* has_more := get_key "has_more" (sr_has_more resp) in
      if has_more then sites_pages fuel' rev K get env (page + 1)%Z sites
      else ret (Some sites)
  end.

Definition request_parse_sites_api (fuel : nat) (rev : revision) (K : Collaborators)
    (get : list (string * param) -> result sites_response) (env : EnvParams)
    : M (world Site) (option (list Site)) :=
  sites_pages fuel rev K get env 1 [].

(** ** The search action of [main] *)

(** Lines 532-534: parse the argument, then search. *)
Definition search_action (rev : revision) (K : Collaborators) (cd : CacheDirectory)
    (env : EnvParams) (arg : str) : world Answer -> list item * world Answer :=
  let '(query, tags, additional_query) := parse_search_query arg in
  do_search rev K cd env query tags additional_query.

(** * Notions the properties are stated with *)

(** ** Key derivation *)

Definition is_hex (c : N) : bool :=
  ((48 <=? c) && (c <=? 57)) || ((97 <=? c) && (c <=? 102)).

(** UTF-8 is a prefix code: the first byte tells the length, the bytes give
    back the code point. *)
Definition utf8_decode1 (bs : bytes) : option (N * bytes) :=
  match bs with
  | [] => None
  | b0 :: r0 =>
      if b0 <? 0x80 then Some (b0, r0)
      else if b0 <? 0xE0 then
        match r0 with
        | b1 :: r1 => Some ((b0 - 0xC0) * 64 + (b1 - 0x80), r1)
        | _ => None
        end
      else if b0 <? 0xF0 then
        match r0 with
        | b1 :: b2 :: r2 =>
            Some ((b0 - 0xE0) * 4096 + (b1 - 0x80) * 64 + (b2 - 0x80), r2)
        | _ => None
        end
      else
        match r0 with
        | b1 :: b2 :: b3 :: r3 =>
            Some ((b0 - 0xF0) * 262144 + (b1 - 0x80) * 4096
                  + (b2 - 0x80) * 64 + (b3 - 0x80), r3)
        | _ => None
        end
  end.

(** A triple the key derivation accepts: no string holds a lone surrogate. *)
Definition valid_triple (site_id query : str) (tags : list str) : Prop :=
  Forall encodable site_id /\ Forall encodable query /\ Forall (Forall encodable) tags.

(** No ['_'] in the string. *)
Definition sep_free (s : str) : Prop := ~ In 95 s.

Ltac sep_free_tac :=
  let H := fresh in
  unfold sep_free; simpl; intros H; decompose [or] H; (discriminate || contradiction).

(** ** Query parsing *)

(** The words of the terms-and-tags part that start with ['#'], the prefix
    dropped; and the other words, joined by single spaces. *)
Definition is_tag (w : str) : bool := startswith (lit "#") w.
Definition tags_of (rest : str) : list str := List.map (@tl N) (List.filter is_tag (split rest)).
Definition query_of (rest : str) : str :=
  join (lit " ") (List.filter (fun w => negb (is_tag w)) (split rest)).

(** A word of [split]: not empty, no whitespace in it. *)
Definition is_word (w : str) : Prop := w <> [] /\ Forall (fun c => isspace c = false) w.

Definition demo_env : EnvParams :=
  mkEnvParams 10 true 10 (lit "so") (lit "Stack Overflow") [] [] (lit "/c").

Definition demo_items : list raw_item :=
  [mkRawItem (lit "T") (lit "l1") [] false 1;
   mkRawItem (lit "U") (lit "l2") [] true 2;
   mkRawItem (lit "T") (lit "l3") [] true 3].

(** A remote that answers every search with [demo_items] and quota [q], an
    fzf that gives [out] and exits with [rc], clock and file system at 100. *)
Definition demo_K (q : Z) (rc : Z) (out : str) : Collaborators :=
  mkCollaborators 100
    (fun _ _ => Ok (mkResponse (Some demo_items) (Some q)))
    (fun _ _ => Exited rc out)
    (fun s => s)
    100.

(** ** The fetch-or-load decision *)

(** The freshness test as a function of what is on disk. *)
Definition stale_in (K : Collaborators) (env : EnvParams)
    (m : gmap (list N) (node Answer)) (path : str) : bool :=
  match m !! path with
  | Some (File mtime _) =>
      Float64.ge_int (Float64.sub (clock K) mtime) (cache_max_age env)
  | _ => true
  end.

Definition demo_cd : CacheDirectory := new_CacheDirectory demo_env.

(** The cache file of the search for ["q"] without tags. *)
Definition demo_path : str := lit "/c/answers/f5314dede4e6.json.gz".

Definition demo_answer : Answer := mkAnswer (lit "T") (lit "l1") [] false 1.

(** A disk with that cache file, written at time [mtime]. *)
Definition demo_world (mtime : Q) (c : content Answer) : world Answer :=
  mkWorld {[ demo_path := File mtime c ]} [].

(** ** The narrowing stage *)

Definition is_fzf_event (ev : event) : bool :=
  match ev with EvFzf _ _ => true | _ => false end.

(** ** Writing a cache file *)

(** The disk states a concurrent reader can meet while [ops] run. *)
Fixpoint observable {A : Type} (K : Collaborators) (ops : list (fs_op A))
    (m : gmap (list N) (node A)) : list (gmap (list N) (node A)) :=
  m :: match ops with
       | [] => []
       | op :: ops' =>
           match apply_op K op m with
           | Ok m' => observable K ops' m'
           | Raise _ => []
           end
       end.

Definition op_path {A : Type} (op : fs_op A) : str :=
  match op with
  | OpenTruncate path => path
  | WriteClose path _ => path
  end.

(** ** Narrowing by the secondary filter *)

(** The titles in the order they first occur: [seen] holds those passed. *)
Fixpoint unseen (seen l : list (list N)) : list (list N) :=
  match l with
  | [] => []
  | x :: l' =>
      if bool_decide (x ∈ seen) then unseen seen l' else x :: unseen (x :: seen) l'
  end.

Definition first_occurrences (l : list (list N)) : list (list N) := unseen [] l.

(** The last answer of the list that has the title. *)
Definition last_with_title (answers : list Answer) (t : str) : option Answer :=
  List.find (fun a => bool_decide (title a = t)) (rev answers).

(** One answer per title asked for, in the order asked; a title no answer has
    is a [KeyError]. *)
Fixpoint pick_all (answers : list Answer) (titles : list (list N)) : result (list Answer) :=
  match titles with
  | [] => Ok []
  | t :: titles' =>
      match last_with_title answers t with
      | None => Raise (KeyError t)
      | Some a =>
          match pick_all answers titles' with
          | Raise e => Raise e
          | Ok rest => Ok (a :: rest)
          end
      end
  end.

(** ** More on [parse_search_query] *)

(** The part of the trimmed input that holds the terms and tags, and the
    secondary filter: lines 411-416. *)
Definition terms_and_filter (s : str) : str * str :=
  let string := strip s in
  if contains (lit "//") string then
    let '(rest, _, additional_query) := partition (lit "//") string in
    (rest, additional_query)
  else if endswith (lit "/") string then (removelast string, [])
  else (string, []).

(** The sites [do_sites] reads from the cache: none when there is no file. *)
Definition cached_sites (cd : CacheDirectory) (w : world Site) : result (list Site) :=
  match fs w !! get_sites_cache cd with
  | Some (File _ (WellFormed rows)) => Ok rows
  | Some (File _ (Malformed e)) => Raise e
  | _ => Ok []
  end.

Definition demo_sites : list Site :=
  [mkSite (lit "so") (lit "Stack Overflow") (lit "programmers") (lit "u1") false;
   mkSite (lit "meta.so") (lit "Meta Stack Overflow") (lit "users") (lit "u2") true].

Definition demo_sites_world : world Site :=
  mkWorld {[ lit "/c/all_sites.json" := File 0 (WellFormed demo_sites) ]} [].

(** The sites of one page that are kept. *)
Definition kept_sites (K : Collaborators) (items : list raw_site) : list Site :=
  List.map (parse_site K) (List.filter (fun item => negb (is_closed_beta item)) items).

(** The requests for pages [page], [page + 1], ... one per element of [pages]. *)
Fixpoint page_requests (rev : revision) (env : EnvParams) (page : Z)
    (pages : list (list raw_site)) : list event :=
  match pages with
  | [] => []
  | _ :: pages' =>
      EvRequest sites_url (sites_params rev page env)
        :: page_requests rev env (page + 1)%Z pages'
  end.

(** The server's answer to the request for page [page + i] is the [i]-th of
    [pages], with [has_more] set on all but the last. *)
Fixpoint serves (rev : revision) (env : EnvParams)
    (get : list (string * param) -> result sites_response) (page : Z)
    (pages : list (list raw_site)) : Prop :=
  match pages with
  | [] => True
  | items :: pages' =>
      get (sites_params rev page env)
      = Ok (mkSitesResponse (Some items)
              (Some (match pages' with [] => false | _ => true end))) /\
      serves rev env get (page + 1)%Z pages'
  end.

Definition demo_site_page1 : list raw_site :=
  [mkRawSite (lit "so") (lit "Stack Overflow") (lit "programmers") (lit "u1")
     (lit "normal") (lit "main_site");
   mkRawSite (lit "beta") (lit "Beta") (lit "testers") (lit "u3")
     (lit "closed_beta") (lit "main_site")].

Definition demo_site_page2 : list raw_site :=
  [mkRawSite (lit "meta.so") (lit "Meta Stack Overflow") (lit "users") (lit "u2")
     (lit "normal") (lit "meta_site")].

(** A server with two pages of sites. *)
Definition demo_sites_get (params : list (string * param)) : result sites_response :=
  match params with
  | (_, PInt 1) :: _ => Ok (mkSitesResponse (Some demo_site_page1) (Some true))
  | _ => Ok (mkSitesResponse (Some demo_site_page2) (Some false))
  end.

(** * Properties *)

(** FIPS 180-4 test vectors. *)
Example sha1_abc :
  SHA1.hexdigest (lit "abc") = lit "a9993e364706816aba3e25717850c26c9cd0d89d".
Proof. vm_compute. reflexivity. Qed.

Example sha1_empty :
  SHA1.hexdigest [] = lit "da39a3ee5e6b4b0d3255bfef95601890afd80709".
Proof. vm_compute. reflexivity. Qed.

Example sha1_two_blocks :
  SHA1.hexdigest (lit "abcdbcdecdefdefgefghfghighijhijkijkljklmklmnlmnomnopnopq")
  = lit "84983e441c3bd26ebaae4aa1f95129e5e54670f1".
Proof. vm_compute. reflexivity. Qed.

Example parse_doc_example :
  parse_search_query (lit "foo #bar #baz // extra text")
  = (lit "foo", [lit "bar"; lit "baz"], lit " extra text").
Proof. vm_compute. reflexivity. Qed.

Example parse_trailing_slash :
  parse_search_query (lit "foo bar/") = (lit "foo bar", [], []).
Proof. vm_compute. reflexivity. Qed.

Lemma hex_digit_is_hex (n : N) : n < 16 -> is_hex (SHA1.hex_digit n) = true.
Proof.
  intros Hn. unfold SHA1.hex_digit, is_hex.
  destruct (N.ltb_spec n 10).
  - apply orb_true_iff. left. apply andb_true_iff. split; apply N.leb_le; lia.
  - apply orb_true_iff. right. apply andb_true_iff. split; apply N.leb_le; lia.
Qed.

Lemma land_15_lt (x : N) : N.land x 0xF < 16.
Proof.
  change 0xF with (N.ones 4). rewrite N.land_ones.
  apply N.mod_lt. discriminate.
Qed.

Lemma hex8_length (w : N) : List.length (SHA1.hex8 w) = 8%nat.
Proof. reflexivity. Qed.

Lemma hex8_is_hex (w : N) : forallb is_hex (SHA1.hex8 w) = true.
Proof.
  unfold SHA1.hex8. rewrite forallb_forall. intros c Hc.
  apply in_map_iff in Hc. destruct Hc as [k [<- _]].
  apply hex_digit_is_hex, land_15_lt.
Qed.

Lemma hexdigest_length (msg : bytes) : List.length (SHA1.hexdigest msg) = 40%nat.
Proof.
  unfold SHA1.hexdigest. cbv zeta.
  repeat rewrite List.length_app. repeat rewrite hex8_length. reflexivity.
Qed.

Lemma hexdigest_is_hex (msg : bytes) : forallb is_hex (SHA1.hexdigest msg) = true.
Proof.
  unfold SHA1.hexdigest. cbv zeta.
  repeat rewrite forallb_app. repeat rewrite hex8_is_hex. reflexivity.
Qed.

Lemma forallb_firstn {A : Type} (p : A -> bool) (n : nat) (l : list A) :
  forallb p l = true -> forallb p (firstn n l) = true.
Proof.
  revert n. induction l as [|x l IH]; intros [|n] H; simpl in *; auto.
  apply andb_true_iff in H. destruct H as [Hx Hl].
  rewrite Hx. simpl. auto.
Qed.

(** [encode_utf8] succeeds exactly on encodable strings. *)
Lemma utf8_char_ok (c : N) : encodable c -> exists bs, utf8_char c = Ok bs.
Proof.
  intros [Hlt Hs]. unfold utf8_char. rewrite Hs.
  destruct (c <? 0x80); [eauto|].
  destruct (c <? 0x800); [eauto|].
  destruct (c <? 0x10000); [eauto|].
  destruct (N.ltb_spec c 0x110000); [eauto|lia].
Qed.

Lemma encode_utf8_ok (s : str) :
  Forall encodable s -> exists bs, encode_utf8 s = Ok bs.
Proof.
  induction 1 as [|c s Hc _ [rest IH]]; simpl; [eauto|].
  destruct (utf8_char_ok c Hc) as [bs ->]. rewrite IH. eauto.
Qed.

Section JoinInjective.
Variable c : N.

Lemma app_sep_inj (x y r r' : str) :
  ~ In c x -> ~ In c y -> x ++ c :: r = y ++ c :: r' -> x = y /\ r = r'.
Proof.
  revert y. induction x as [|a x IH]; intros [|b y] Hx Hy E; simpl in *.
  - inversion E. auto.
  - inversion E. subst. exfalso. apply Hy. now left.
  - inversion E. subst. exfalso. apply Hx. now left.
  - inversion E. subst. destruct (IH y) as [-> ->]; auto.
Qed.

Lemma app_sep_absurd (x y r : str) : ~ In c x -> x <> y ++ c :: r.
Proof.
  intros Hx E. apply Hx. rewrite E. apply in_or_app. right. now left.
Qed.

Lemma join_cons2 (x y : str) (l : list str) :
  join [c] (x :: y :: l) = x ++ c :: join [c] (y :: l).
Proof. reflexivity. Qed.

Lemma join_inj (xs ys : list str) :
  xs <> [] -> ys <> [] ->
  Forall (fun x => ~ In c x) xs -> Forall (fun y => ~ In c y) ys ->
  join [c] xs = join [c] ys -> xs = ys.
Proof.
  revert ys. induction xs as [|x xs IH]; intros ys Hxs Hys Fx Fy E.
  - congruence.
  - destruct ys as [|y ys]; [congruence|].
    inversion Fx as [|? ? Hx Fx']. inversion Fy as [|? ? Hy Fy']. subst.
    destruct xs as [|x' xs]; destruct ys as [|y' ys].
    + simpl in E. congruence.
    + rewrite join_cons2 in E. simpl in E.
      exfalso. eapply app_sep_absurd; [exact Hx|exact E].
    + rewrite join_cons2 in E. simpl in E. symmetry in E.
      exfalso. eapply app_sep_absurd; [exact Hy|exact E].
    + rewrite !join_cons2 in E.
      apply app_sep_inj in E; auto. destruct E as [-> E].
      f_equal. apply IH; auto; discriminate.
Qed.
End JoinInjective.

Lemma utf8_decode1_char (c : N) (bs rest : bytes) :
  utf8_char c = Ok bs -> utf8_decode1 (bs ++ rest) = Some (c, rest).
Proof.
  unfold utf8_char.
  pose proof (N.div_mod c 64 ltac:(discriminate)) as D0.
  pose proof (N.mod_lt c 64 ltac:(discriminate)) as L0.
  pose proof (N.div_mod (c / 64) 64 ltac:(discriminate)) as D1.
  pose proof (N.mod_lt (c / 64) 64 ltac:(discriminate)) as L1.
  pose proof (N.div_mod (c / 64 / 64) 64 ltac:(discriminate)) as D2.
  pose proof (N.mod_lt (c / 64 / 64) 64 ltac:(discriminate)) as L2.
  replace (c / 4096) with (c / 64 / 64) by (rewrite N.Div0.div_div; reflexivity).
  replace (c / 262144) with (c / 64 / 64 / 64)
    by (rewrite !N.Div0.div_div; reflexivity).
  remember (c / 64 / 64 / 64) as q3 eqn:E; clear E.
  remember ((c / 64 / 64) mod 64) as r2 eqn:E; clear E.
  remember (c / 64 / 64) as q2 eqn:E; clear E.
  remember ((c / 64) mod 64) as r1 eqn:E; clear E.
  remember (c / 64) as q1 eqn:E; clear E.
  remember (c mod 64) as r0 eqn:E; clear E.
  intros H.
  destruct (N.ltb_spec c 0x80) as [H1|H1].
  { injection H as <-. simpl.
    destruct (N.ltb_spec c 0x80); [reflexivity|lia]. }
  destruct (N.ltb_spec c 0x800) as [H2|H2].
  { injection H as <-. cbv beta iota delta [utf8_decode1 app].
    destruct (N.ltb_spec (0xC0 + q1) 0x80); [lia|].
    destruct (N.ltb_spec (0xC0 + q1) 0xE0); [|lia].
    f_equal. f_equal. lia. }
  destruct (N.ltb_spec c 0x10000) as [H3|H3].
  { destruct (is_surrogate c); [discriminate|].
    injection H as <-. cbv beta iota delta [utf8_decode1 app].
    destruct (N.ltb_spec (0xE0 + q2) 0x80); [lia|].
    destruct (N.ltb_spec (0xE0 + q2) 0xE0); [lia|].
    destruct (N.ltb_spec (0xE0 + q2) 0xF0); [|lia].
    f_equal. f_equal. lia. }
  destruct (N.ltb_spec c 0x110000) as [H4|H4]; [|discriminate].
  injection H as <-. cbv beta iota delta [utf8_decode1 app].
  destruct (N.ltb_spec (0xF0 + q3) 0x80); [lia|].
  destruct (N.ltb_spec (0xF0 + q3) 0xE0); [lia|].
  destruct (N.ltb_spec (0xF0 + q3) 0xF0); [lia|].
  f_equal. f_equal. lia.
Qed.

Lemma utf8_char_nonempty (c : N) (bs : bytes) : utf8_char c = Ok bs -> bs <> [].
Proof.
  unfold utf8_char.
  repeat match goal with
         | |- context [if ?b then _ else _] => destruct b
         end; intros E; inversion E; discriminate.
Qed.

Lemma encode_utf8_inj (s s' : str) (bs : bytes) :
  encode_utf8 s = Ok bs -> encode_utf8 s' = Ok bs -> s = s'.
Proof.
  revert s' bs. induction s as [|c s IH]; intros [|c' s'] bs; simpl.
  - reflexivity.
  - intros E. inversion E. subst.
    destruct (utf8_char c') as [b|] eqn:Ec; [|discriminate].
    destruct (encode_utf8 s'); [|discriminate].
    intros E'. inversion E' as [E'']. apply utf8_char_nonempty in Ec.
    destruct b; [congruence|discriminate].
  - destruct (utf8_char c) as [b|] eqn:Ec; [|discriminate].
    destruct (encode_utf8 s); [|discriminate].
    intros E E'. inversion E. inversion E'. subst.
    apply utf8_char_nonempty in Ec. destruct b; [congruence|discriminate].
  - destruct (utf8_char c) as [b|] eqn:Ec; [|discriminate].
    destruct (encode_utf8 s) as [r|] eqn:Es; [|discriminate].
    destruct (utf8_char c') as [b'|] eqn:Ec'; [|discriminate].
    destruct (encode_utf8 s') as [r'|] eqn:Es'; [|discriminate].
    intros E E'. inversion E. inversion E'. subst.
    pose proof (utf8_decode1_char c b r Ec) as D.
    pose proof (utf8_decode1_char c' b' r' Ec') as D'.
    rewrite <- H1 in D. rewrite D' in D. inversion D. subst.
    f_equal. eapply IH; eauto.
Qed.

Lemma join_Forall (P : N -> Prop) (sep : str) (xs : list str) :
  Forall P sep -> Forall (Forall P) xs -> Forall P (join sep xs).
Proof.
  intros Hsep. induction 1 as [|x xs Hx Hxs IH]; [constructor|].
  destruct xs as [|y xs]; [exact Hx|].
  change (Forall P (x ++ sep ++ join sep (y :: xs))).
  apply Forall_app. split; [exact Hx|]. apply Forall_app. split; assumption.
Qed.

Lemma encodable_underscore : Forall encodable (lit "_").
Proof. repeat constructor. Qed.

Lemma valid_triple_encodes (site_id query : str) (tags : list str) :
  valid_triple site_id query tags ->
  exists bs, encode_utf8 (sbuf_joined site_id query tags) = Ok bs.
Proof.
  intros (Hs & Hq & Ht). apply encode_utf8_ok. unfold sbuf_joined.
  apply join_Forall; [exact encodable_underscore|].
  repeat constructor; assumption.
Qed.

Lemma sbuf_joined_inj (s q s' q' : str) (t t' : list str) :
  sep_free s -> sep_free q -> Forall sep_free t ->
  sep_free s' -> sep_free q' -> Forall sep_free t' ->
  sbuf_joined s q t = sbuf_joined s' q' t' -> (s, q, t) = (s', q', t').
Proof.
  intros Hs Hq Ht Hs' Hq' Ht' E. unfold sbuf_joined in E.
  apply (join_inj 95) in E; try discriminate.
  - inversion E. reflexivity.
  - repeat constructor; assumption.
  - repeat constructor; assumption.
Qed.

Lemma sbuf_joined_tags_inj (s q : str) (t t' : list str) :
  Forall sep_free t -> Forall sep_free t' -> List.length t = List.length t' ->
  sbuf_joined s q t = sbuf_joined s q t' -> t = t'.
Proof.
  intros Ht Ht' Hlen E. unfold sbuf_joined in E.
  destruct t as [|x t]; destruct t' as [|x' t']; try discriminate; [reflexivity|].
  change (s ++ lit "_" ++ q ++ lit "_" ++ join (lit "_") (x :: t)
          = s ++ lit "_" ++ q ++ lit "_" ++ join (lit "_") (x' :: t')) in E.
  do 4 apply app_inv_head in E.
  apply (join_inj 95) in E; auto; discriminate.
Qed.

(** C1 (as stated, refuted): two different orders of the same tags, one key. *)
Lemma C1_permuted_tags_same_key :
  let cd := new_CacheDirectory
              (mkEnvParams 10 true 10 (lit "so") (lit "so") [] [] (lit "/c")) in
  let tags := [lit "a"; lit "a_a"] in
  let tags' := [lit "a_a"; lit "a"] in
  valid_triple (lit "so") (lit "q") tags /\
  Permutation tags tags' /\ tags <> tags' /\
  get_answers_cache cd (lit "so") (lit "q") tags
  = get_answers_cache cd (lit "so") (lit "q") tags'.
Proof.
  cbv zeta. split; [|split; [|split]].
  - unfold valid_triple. repeat constructor.
  - apply perm_swap.
  - discriminate.
  - reflexivity.
Qed.

(** C1 (amended): for every valid triple the key exists, is the first 12
    characters of the SHA-1 hex digest of the UTF-8 bytes of
    ['_'.join([site_id, query] + tags)], has length 12 and only lowercase
    hexadecimal digits, and the path is [answers_dir/<key>.json.gz]. The tags
    enter the digest in the order given: when no tag holds ['_'], a permutation
    of the tags that is a different list gives different digest input, and
    its key is the digest prefix of that other input. *)
Theorem C1_answers_key (cd : CacheDirectory) (site_id query : str) (tags : list str) :
  key_len cd = 12%nat ->
  valid_triple site_id query tags ->
  exists bs k,
    encode_utf8 (sbuf_joined site_id query tags) = Ok bs /\
    k = firstn 12 (SHA1.hexdigest bs) /\
    answers_key cd site_id query tags = Ok k /\
    get_answers_cache cd site_id query tags
    = Ok (path_join (answers_dir cd) (k ++ lit ".json.gz")) /\
    List.length k = 12%nat /\
    forallb is_hex k = true /\
    forall tags',
      Forall sep_free tags -> Permutation tags tags' -> tags' <> tags ->
      exists bs',
        encode_utf8 (sbuf_joined site_id query tags') = Ok bs' /\
        bs' <> bs /\
        answers_key cd site_id query tags' = Ok (firstn 12 (SHA1.hexdigest bs')).
Proof.
  intros Hlen Hv.
  destruct (valid_triple_encodes _ _ _ Hv) as [bs Hbs].
  exists bs, (firstn 12 (SHA1.hexdigest bs)).
  split; [exact Hbs|]. split; [reflexivity|].
  assert (Hk : answers_key cd site_id query tags = Ok (firstn 12 (SHA1.hexdigest bs))).
  { unfold answers_key. rewrite Hbs, Hlen. reflexivity. }
  split; [exact Hk|].
  split. { unfold get_answers_cache. rewrite Hk. reflexivity. }
  split. { rewrite length_firstn, hexdigest_length. reflexivity. }
  split. { apply forallb_firstn, hexdigest_is_hex. }
  intros tags' Hfree Hperm Hne.
  destruct Hv as (Hs & Hq & Ht).
  assert (Hv' : valid_triple site_id query tags').
  { repeat split; try assumption.
    eapply Permutation_Forall; [exact Hperm|exact Ht]. }
  destruct (valid_triple_encodes _ _ _ Hv') as [bs' Hbs'].
  exists bs'. split; [exact Hbs'|]. split.
  - intros ->. apply Hne.
    pose proof (encode_utf8_inj _ _ _ Hbs' Hbs) as E.
    apply sbuf_joined_tags_inj in E; auto.
    + eapply Permutation_Forall; [exact Hperm|exact Hfree].
    + symmetry. apply Permutation_length. exact Hperm.
  - unfold answers_key. rewrite Hbs', Hlen. reflexivity.
Qed.

(** Swapping two tags gives another key. *)
Example swapped_tags_other_key :
  answers_key (new_CacheDirectory (mkEnvParams 10 true 10 [] [] [] [] []))
    (lit "so") (lit "q") [lit "a"; lit "b"] = Ok (lit "26f6fc27493e") /\
  answers_key (new_CacheDirectory (mkEnvParams 10 true 10 [] [] [] [] []))
    (lit "so") (lit "q") [lit "b"; lit "a"] = Ok (lit "696d21287157").
Proof. split; vm_compute; reflexivity. Qed.

Lemma C1_answers_key_witness :
  exists bs k,
    encode_utf8 (sbuf_joined (lit "so") (lit "q") [lit "a"; lit "b"]) = Ok bs /\
    k = firstn 12 (SHA1.hexdigest bs) /\
    List.length k = 12%nat.
Proof.
  destruct (C1_answers_key
              (new_CacheDirectory (mkEnvParams 10 true 10 [] [] [] [] []))
              (lit "so") (lit "q") [lit "a"; lit "b"])
    as (bs & k & H1 & H2 & _ & _ & H3 & _).
  - reflexivity.
  - unfold valid_triple. repeat constructor.
  - exists bs, k. auto.
Defined.

(** C8 (as stated, refuted): a query holding ['_'] and a query with a tag
    give one digest input and one cache file. *)
Lemma C8_distinct_triples_collide :
  let cd := new_CacheDirectory
              (mkEnvParams 10 true 10 (lit "so") (lit "so") [] [] (lit "/c")) in
  (lit "so", lit "foo_bar", @nil (list N)) <> (lit "so", lit "foo", [lit "bar"]) /\
  sbuf_joined (lit "so") (lit "foo_bar") [] = sbuf_joined (lit "so") (lit "foo") [lit "bar"] /\
  get_answers_cache cd (lit "so") (lit "foo_bar") []
  = get_answers_cache cd (lit "so") (lit "foo") [lit "bar"].
Proof. cbv zeta. split; [discriminate|]. split; reflexivity. Qed.

(** C8 (amended): the digest is taken of [site_id], [query] and the tags joined
    by ['_']. For two distinct triples in which no string holds ['_'], the
    joined strings differ, and so do their UTF-8 bytes, which are what the
    digest reads. *)
Theorem C8_separator_free_injective (s q s' q' : str) (t t' : list str) :
  sep_free s -> sep_free q -> Forall sep_free t ->
  sep_free s' -> sep_free q' -> Forall sep_free t' ->
  (s, q, t) <> (s', q', t') ->
  sbuf_joined s q t <> sbuf_joined s' q' t' /\
  forall bs bs',
    encode_utf8 (sbuf_joined s q t) = Ok bs ->
    encode_utf8 (sbuf_joined s' q' t') = Ok bs' ->
    bs <> bs'.
Proof.
  intros Hs Hq Ht Hs' Hq' Ht' Hne.
  assert (Hj : sbuf_joined s q t <> sbuf_joined s' q' t').
  { intros E. apply Hne. apply sbuf_joined_inj; assumption. }
  split; [exact Hj|].
  intros bs bs' Hbs Hbs' ->. apply Hj. eapply encode_utf8_inj; eassumption.
Qed.

Lemma C8_separator_free_injective_witness :
  sbuf_joined (lit "so") (lit "foo") [lit "bar"]
  <> sbuf_joined (lit "so") (lit "foo") [lit "baz"].
Proof.
  refine (proj1 (C8_separator_free_injective (lit "so") (lit "foo") (lit "so") (lit "foo")
           [lit "bar"] [lit "baz"] _ _ _ _ _ _ _)).
  - sep_free_tac.
  - sep_free_tac.
  - constructor; [sep_free_tac|constructor].
  - sep_free_tac.
  - sep_free_tac.
  - constructor; [sep_free_tac|constructor].
  - discriminate.
Defined.

Lemma fold_classify (ws qs ts : list str) :
  fold_left classify ws (qs, ts)
  = (qs ++ List.filter (fun w => negb (is_tag w)) ws,
     ts ++ List.map (@tl N) (List.filter is_tag ws)).
Proof.
  revert qs ts. induction ws as [|w ws IH]; intros qs ts.
  - simpl. now rewrite !app_nil_r.
  - change (fold_left classify (w :: ws) (qs, ts))
      with (fold_left classify ws (classify (qs, ts) w)).
    assert (Hc : classify (qs, ts) w
                 = if is_tag w then (qs, ts ++ [tl w]) else (qs ++ [w], ts))
      by reflexivity.
    rewrite Hc. cbn [List.filter].
    destruct (is_tag w); cbn [negb List.map]; rewrite IH, <- app_assoc; reflexivity.
Qed.

Lemma startswith_app (p s : str) : startswith p (p ++ s) = true.
Proof.
  induction p as [|a p IH]; simpl; [reflexivity|].
  rewrite N.eqb_refl. exact IH.
Qed.

Lemma find_unfold (sub s : str) :
  find sub s = if startswith sub s then Some O
               else match s with
                    | [] => None
                    | _ :: s' => option_map S (find sub s')
                    end.
Proof. destruct s; reflexivity. Qed.

Lemma find_first (sub rest add : str) :
  (forall j, (j < List.length rest)%nat ->
             startswith sub (skipn j (rest ++ sub ++ add)) = false) ->
  find sub (rest ++ sub ++ add) = Some (List.length rest).
Proof.
  induction rest as [|c rest IH]; intros H.
  - rewrite find_unfold. cbn [app]. now rewrite startswith_app.
  - rewrite find_unfold.
    pose proof (H O ltac:(simpl; lia)) as H0.
    change (startswith sub ((c :: rest) ++ sub ++ add) = false) in H0. rewrite H0.
    cbn [app]. rewrite IH; [reflexivity|].
    intros j Hj. apply (H (S j)). simpl. lia.
Qed.

Lemma startswith_head_In (c : N) (p s : str) : startswith (c :: p) s = true -> In c s.
Proof.
  destruct s as [|b s]; simpl; [discriminate|].
  intros H. apply andb_true_iff in H. destruct H as [H _].
  apply N.eqb_eq in H. now left.
Qed.

Lemma contains_head_In (c : N) (p s : str) : contains (c :: p) s = true -> In c s.
Proof.
  unfold contains. induction s as [|b s IH].
  - simpl. discriminate.
  - rewrite find_unfold.
    destruct (startswith (c :: p) (b :: s)) eqn:E.
    + intros _. apply startswith_head_In in E. exact E.
    + intros H. right. apply IH.
      destruct (find (c :: p) s); [reflexivity|discriminate].
Qed.

Lemma lstrip_In (c : N) (s : str) : In c (lstrip s) -> In c s.
Proof.
  induction s as [|b s IH]; simpl; [auto|].
  destruct (isspace b); [intros H; right; auto|auto].
Qed.

Lemma strip_In (c : N) (s : str) : In c (strip s) -> In c s.
Proof.
  unfold strip, rstrip. intros H. apply in_rev in H.
  apply lstrip_In in H. apply in_rev in H. apply lstrip_In. exact H.
Qed.

Lemma endswith_head_In (c : N) (s : str) : endswith [c] s = true -> In c s.
Proof.
  unfold endswith. simpl rev. intros H.
  apply startswith_head_In in H. apply in_rev. exact H.
Qed.

Lemma endswith_last (c : N) (s : str) : endswith [c] (s ++ [c]) = true.
Proof.
  unfold endswith. rewrite rev_app_distr. simpl. now rewrite N.eqb_refl.
Qed.

Lemma parse_terms_and_tags (s rest add : str) :
  (let string := strip s in
   if contains (lit "//") string then
     let '(rest, _, additional_query) := partition (lit "//") string in
     (rest, additional_query)
   else if endswith (lit "/") string then (removelast string, [])
   else (string, [])) = (rest, add) ->
  parse_search_query s = (query_of rest, tags_of rest, add).
Proof.
  intros H. unfold parse_search_query. cbv zeta in *. rewrite H.
  rewrite fold_classify. reflexivity.
Qed.

Lemma split_from_words (cur s : str) :
  Forall (fun c => isspace c = false) cur ->
  Forall is_word (split_from cur s).
Proof.
  revert cur. induction s as [|c s IH]; intros cur Hcur; simpl.
  - destruct cur; constructor; [|constructor]. split; [discriminate|exact Hcur].
  - destruct (isspace c) eqn:E.
    + destruct cur as [|a cur].
      * apply IH. constructor.
      * constructor; [split; [discriminate|exact Hcur]|]. apply IH. constructor.
    + apply IH. apply Forall_app. split; [exact Hcur|]. repeat constructor. exact E.
Qed.

Lemma split_words (s : str) : Forall is_word (split s).
Proof. apply split_from_words. constructor. Qed.

Lemma split_from_word (cur w s : str) :
  Forall (fun c => isspace c = false) w ->
  split_from cur (w ++ s) = split_from (cur ++ w) s.
Proof.
  revert cur. induction w as [|c w IH]; intros cur Hw; simpl.
  - now rewrite app_nil_r.
  - inversion Hw as [|? ? Hc Hw']. subst. rewrite Hc.
    rewrite IH by assumption. now rewrite <- app_assoc.
Qed.

(** [split] gives back words that were joined by single spaces. *)
Lemma split_join (ws : list str) :
  Forall is_word ws -> split (join (lit " ") ws) = ws.
Proof.
  unfold split. induction 1 as [|w ws [Hne Hw] Hws IH]; [reflexivity|].
  destruct ws as [|w' ws].
  - cbn [join]. rewrite <- (app_nil_r w) at 1. rewrite split_from_word by assumption.
    cbn [app split_from]. destruct w; [congruence|reflexivity].
  - change (join (lit " ") (w :: w' :: ws))
      with (w ++ 32 :: join (lit " ") (w' :: ws)).
    rewrite split_from_word by assumption. cbn [app].
    destruct w as [|c w]; [congruence|].
    change (split_from (c :: w) (32 :: join (lit " ") (w' :: ws)))
      with ((c :: w) :: split_from [] (join (lit " ") (w' :: ws))).
    f_equal. exact IH.
Qed.

(** C4 (as stated, refuted): the text after ["//"] is not trimmed. *)
Lemma C4_secondary_keeps_leading_space :
  parse_search_query (lit "foo #bar #baz // extra text")
  <> (lit "foo", [lit "bar"; lit "baz"], lit "extra text").
Proof. vm_compute. discriminate. Qed.

(** C4 (amended): with [t] the trimmed input, if ["//"] first occurs in [t]
    after [rest], the secondary filter is everything after it, untrimmed, and
    [rest] gives the terms and tags; otherwise a trailing ['/'] is dropped and
    the secondary filter is empty. The terms and tags are the whitespace
    separated words of [rest]: those starting with ['#'] are the tags, prefix
    dropped, the others are joined by single spaces, both in their order.
    ["foo #bar #baz // extra text"] gives terms ["foo"], tags ["bar"], ["baz"]
    and secondary [" extra text"]; ["foo bar/"] gives terms ["foo bar"], no
    tags, empty secondary; input with no slash gives an empty secondary. *)
Theorem C4_parse_search_query (s : str) :
  let t := strip s in
  (forall rest add,
     t = rest ++ lit "//" ++ add ->
     (forall j, (j < List.length rest)%nat ->
                startswith (lit "//") (skipn j t) = false) ->
     parse_search_query s = (query_of rest, tags_of rest, add)) /\
  (forall rest,
     contains (lit "//") t = false -> t = rest ++ lit "/" ->
     parse_search_query s = (query_of rest, tags_of rest, [])) /\
  (contains (lit "//") t = false -> endswith (lit "/") t = false ->
   parse_search_query s = (query_of t, tags_of t, [])) /\
  (~ In 47 s -> snd (parse_search_query s) = []) /\
  Forall is_word (split t) /\
  parse_search_query (lit "foo #bar #baz // extra text")
  = (lit "foo", [lit "bar"; lit "baz"], lit " extra text") /\
  parse_search_query (lit "foo bar/") = (lit "foo bar", [], []).
Proof.
  cbv zeta. repeat split.
  - intros rest add Ht Hfirst. apply parse_terms_and_tags. cbv zeta.
    rewrite Ht in Hfirst |- *. apply find_first in Hfirst.
    unfold contains, partition. rewrite Hfirst.
    rewrite firstn_app, Nat.sub_diag, firstn_all. simpl firstn. rewrite app_nil_r.
    rewrite skipn_app, skipn_all2 by (simpl; lia).
    replace (List.length rest + List.length (lit "//") - List.length rest)%nat
      with 2%nat by (simpl; lia).
    reflexivity.
  - intros rest Hc Ht. apply parse_terms_and_tags. cbv zeta.
    rewrite Hc. rewrite Ht. change (lit "/") with [47].
    rewrite endswith_last, removelast_last. reflexivity.
  - intros Hc He. apply parse_terms_and_tags. cbv zeta.
    rewrite Hc, He. reflexivity.
  - intros Hno.
    assert (Hc : contains (lit "//") (strip s) = false).
    { destruct (contains (lit "//") (strip s)) eqn:E; [|reflexivity].
      apply contains_head_In, strip_In in E. contradiction. }
    assert (He : endswith (lit "/") (strip s) = false).
    { destruct (endswith (lit "/") (strip s)) eqn:E; [|reflexivity].
      apply endswith_head_In, strip_In in E. contradiction. }
    rewrite (parse_terms_and_tags s (strip s) []); [reflexivity|].
    cbv zeta. rewrite Hc, He. reflexivity.
  - apply split_words.
Qed.

(** ** Sorting answered results first *)

Section SortFacts.
Context {A : Type} (key : A -> Z).

Lemma insert_desc_perm (x : A) (l : list A) : Permutation (x :: l) (insert_desc key x l).
Proof.
  induction l as [|y l IH]; simpl; [reflexivity|].
  destruct (key x <? key y)%Z; [|reflexivity].
  rewrite perm_swap. now apply perm_skip.
Qed.

Lemma sort_desc_perm (l : list A) : Permutation l (sort_desc key l).
Proof.
  induction l as [|x l IH]; simpl; [reflexivity|].
  rewrite <- insert_desc_perm. now apply perm_skip.
Qed.

(** Inserting below a block of larger keys and above the rest. *)
Lemma insert_desc_between (x : A) (hi lo : list A) :
  Forall (fun y => (key x < key y)%Z) hi ->
  Forall (fun y => (key y <= key x)%Z) lo ->
  insert_desc key x (hi ++ lo) = hi ++ x :: lo.
Proof.
  intros Hhi Hlo. induction Hhi as [|y hi Hy _ IH]; simpl.
  - destruct Hlo as [|y lo Hy _]; simpl; [reflexivity|].
    destruct (Z.ltb_spec (key x) (key y)); [lia|reflexivity].
  - destruct (Z.ltb_spec (key x) (key y)); [|lia]. now rewrite IH.
Qed.
End SortFacts.

(** [sort(key=lambda a: int(a.is_answered), reverse=True)] is the answered
    entries in their order, then the others in theirs. *)
Lemma sort_desc_is_answered (l : list Answer) :
  sort_desc (fun a => Z.b2z (is_answered a)) l
  = List.filter is_answered l ++ List.filter (fun a => negb (is_answered a)) l.
Proof.
  induction l as [|x l IH]; [reflexivity|].
  simpl sort_desc. fold (sort_desc (fun a => Z.b2z (is_answered a)) l). rewrite IH.
  simpl List.filter. destruct (is_answered x) eqn:Ex; simpl negb; cbv iota.
  - apply (insert_desc_between (fun a => Z.b2z (is_answered a)) x []).
    + constructor.
    + rewrite Ex. apply List.Forall_forall. intros y _.
      destruct (is_answered y); simpl; lia.
  - apply (insert_desc_between (fun a => Z.b2z (is_answered a)) x).
    + rewrite Ex. apply List.Forall_forall. intros y Hy.
      apply filter_In in Hy. destruct Hy as [_ ->]. simpl. lia.
    + rewrite Ex. apply List.Forall_forall. intros y Hy.
      apply filter_In in Hy. destruct Hy as [_ Hy].
      destruct (is_answered y); [discriminate|simpl; lia].
Qed.

(** C6: on the fetch path the answers come back sorted by [is_answered]: all
    answered entries first, then all others, each group in the order the remote
    gave them. *)
Theorem C6_answered_first_stable (rev : revision) (K : Collaborators)
    (query : str) (tags : list str) (env : EnvParams) (w : world Answer)
    (resp : response) (items : list raw_item) (q : Z) :
  http_get_json K search_url (search_params rev query tags (site_id env) env) = Ok resp ->
  resp_items resp = Some items ->
  resp_quota_remaining resp = Some q ->
  let parsed := List.map (parse_item K) items in
  exists answers,
    fst (request_parse_search_api rev K query tags (site_id env) env w)
    = Ok (answers, mkQuotaInfo q) /\
    answers = List.filter is_answered parsed
              ++ List.filter (fun a => negb (is_answered a)) parsed /\
    Permutation parsed answers /\
    (forall i j a b, (i < j)%nat ->
       nth_error answers i = Some a -> nth_error answers j = Some b ->
       is_answered b = true -> is_answered a = true).
Proof.
  intros Hhttp Hitems Hq parsed.
  exists (sort_desc (fun a => Z.b2z (is_answered a)) parsed).
  split; [|split; [|split]].
  - unfold request_parse_search_api, bind, emit, lift, get_key, ret. simpl.
    rewrite Hhttp, Hitems, Hq. reflexivity.
  - apply sort_desc_is_answered.
  - apply sort_desc_perm.
  - rewrite sort_desc_is_answered. intros i j a b Hij Ha Hb Hans.
    destruct (is_answered a) eqn:Ea; [reflexivity|exfalso].
    set (yes := List.filter is_answered parsed) in *.
    set (no := List.filter (fun a => negb (is_answered a)) parsed) in *.
    destruct (Nat.lt_ge_cases i (List.length yes)) as [Hi|Hi].
    + rewrite nth_error_app1 in Ha by exact Hi.
      apply nth_error_In, filter_In in Ha. destruct Ha as [_ Ha]. congruence.
    + rewrite nth_error_app2 in Hb by lia.
      apply nth_error_In, filter_In in Hb. destruct Hb as [_ Hb].
      rewrite Hans in Hb. discriminate.
Qed.

Lemma C6_answered_first_stable_witness :
  exists answers,
    fst (request_parse_search_api Script (demo_K 5 0 []) (lit "q") []
           (site_id demo_env) demo_env (mkWorld ∅ []))
    = Ok (answers, mkQuotaInfo 5) /\
    List.map link answers = [lit "l2"; lit "l3"; lit "l1"].
Proof.
  destruct (C6_answered_first_stable Script (demo_K 5 0 []) (lit "q") [] demo_env
              (mkWorld ∅ []) (mkResponse (Some demo_items) (Some 5%Z)) demo_items 5%Z
              eq_refl eq_refl eq_refl) as (answers & H1 & H2 & _).
  exists answers. split; [exact H1|]. rewrite H2. reflexivity.
Defined.

(** [Float64.sub] against the values CPython computes:
    [float(2**54) - 1.0 == 2.0**54], [100.0 - 91.0 == 9.0],
    [1700000000.0 - 500000000.00000006 == 1200000000.0] and
    [0.1 - 0.3 == -0.19999999999999998]. *)
Example float_sub_values :
  Float64.sub (inject_Z (2 ^ 54)) 1 = Float64.Finite (inject_Z (2 ^ 54)) /\
  Float64.sub 100 91 = Float64.Finite 9 /\
  Float64.sub 1700000000 (500000000 + (1 # 16777216)) = Float64.Finite 1200000000 /\
  Float64.sub (3602879701896397 # 36028797018963968) (5404319552844595 # 18014398509481984)
  = Float64.Finite (-7205759403792793 # 36028797018963968).
Proof. repeat split; vm_compute; reflexivity. Qed.

(** The test of [older_than] follows the rounded difference, not the exact
    one: a file written one second before time [2^54] is as old as [2^54]
    seconds to the code. *)
Example older_than_rounds :
  fst (older_than (mkCollaborators (inject_Z (2 ^ 54)) (fun _ _ => Raise EOFError)
                     (fun _ _ => Exited 1 []) (fun s => s) (inject_Z (2 ^ 54)))
         demo_path (2 ^ 54) (demo_world 1 (WellFormed [demo_answer])))
  = Ok true.
Proof. vm_compute. reflexivity. Qed.

Lemma stale_in_file (K : Collaborators) (env : EnvParams)
    (m : gmap (list N) (node Answer)) (path : str) (mtime : Q) (c : content Answer) :
  m !! path = Some (File mtime c) ->
  stale_in K env m path
  = Float64.ge_int (Float64.sub (clock K) mtime) (cache_max_age env).
Proof. intros Hf. unfold stale_in. now rewrite Hf. Qed.

Lemma needs_fetch_run (K : Collaborators) (env : EnvParams) (path : str)
    (w : world Answer) :
  needs_fetch K env path w = (Ok (stale_in K env (fs w) path), w).
Proof.
  unfold needs_fetch, stale_in, bind, is_file, is_file_in.
  destruct (fs w !! path) as [[mtime c|mtime]|] eqn:E; cbn [negb]; try reflexivity.
  unfold older_than, bind, getmtime, ret. rewrite E. reflexivity.
Qed.

Lemma resolve_answers_run (rev : revision) (K : Collaborators) (cd : CacheDirectory)
    (env : EnvParams) (query : str) (tags : list str) (path : str) (w : world Answer) :
  get_answers_cache cd (site_id env) query tags = Ok path ->
  resolve_answers rev K cd env query tags w
  = if stale_in K env (fs w) path
    then fetch_branch rev K env query tags path w
    else load_branch path w.
Proof.
  intros Hp. unfold resolve_answers, bind at 1 2, lift. rewrite Hp.
  rewrite needs_fetch_run. destruct (stale_in K env (fs w) path); reflexivity.
Qed.

(** What the load path does: one read, nothing else. *)
Lemma load_branch_run (path : str) (w : world Answer) :
  load_branch path w
  = (match fs w !! path with
     | Some (File _ (WellFormed rows)) => Ok (rows, 9999999%Z)
     | Some (File _ (Malformed e)) => Raise e
     | Some (Dir _) => Raise (IsADirectoryError path)
     | None => Raise (FileNotFoundError path)
     end, mkWorld (fs w) (log w ++ [EvLoad path])).
Proof.
  unfold load_branch, load_answers_from_cache, load_from_cache, bind, emit, ret. simpl.
  destruct (fs w !! path) as [[mtime [rows|e]|mtime]|]; reflexivity.
Qed.

(** The fetch path starts with the request. *)
Lemma fetch_branch_log (rev : revision) (K : Collaborators) (env : EnvParams)
    (query : str) (tags : list str) (path : str) (w : world Answer) :
  exists evs,
    log (snd (fetch_branch rev K env query tags path w))
    = log w ++ EvRequest search_url (search_params rev query tags (site_id env) env) :: evs
    /\ Forall (fun ev => match ev with EvFzf _ _ => False | _ => True end) evs.
Proof.
  unfold fetch_branch, request_parse_search_api, dump_answers_to_cache, dump_to_cache,
    run_ops, dump_ops, run_op, apply_op, bind, emit, lift, get_key, ret, raise. simpl.
  destruct (http_get_json K _ _) as [resp|e]; simpl; [|exists []; split; [reflexivity|constructor]].
  destruct (resp_items resp) as [items|]; simpl; [|exists []; split; [reflexivity|constructor]].
  destruct (resp_quota_remaining resp) as [q|]; simpl; [|exists []; split; [reflexivity|constructor]].
  destruct (fs w !! path) as [[mtime c|mtime]|]; simpl;
    exists [EvOpenWrite path]; (split; [now rewrite <- app_assoc|repeat constructor]).
Qed.

(** C2: with the cache path derived, a missing cache file takes the fetch path.
    For an existing cache file the age is the float the code computes,
    [time.time() - getmtime(path)]: when it is at least [cache_max_age] the
    fetch path is taken, when it is below the load path is taken, which reads
    the file and asks the remote nothing. An age equal to [cache_max_age]
    fetches; an age one second less loads. *)
Theorem C2_freshness_check (rev : revision) (K : Collaborators) (cd : CacheDirectory)
    (env : EnvParams) (query : str) (tags : list str) (path : str) (w : world Answer) :
  get_answers_cache cd (site_id env) query tags = Ok path ->
  (is_file_in (fs w) path = false ->
   resolve_answers rev K cd env query tags w = fetch_branch rev K env query tags path w) /\
  (forall mtime c,
     fs w !! path = Some (File mtime c) ->
     Float64.ge_int (Float64.sub (clock K) mtime) (cache_max_age env) = true ->
     resolve_answers rev K cd env query tags w = fetch_branch rev K env query tags path w) /\
  (forall mtime c,
     fs w !! path = Some (File mtime c) ->
     Float64.ge_int (Float64.sub (clock K) mtime) (cache_max_age env) = false ->
     resolve_answers rev K cd env query tags w = load_branch path w /\
     log (snd (load_branch path w)) = log w ++ [EvLoad path]) /\
  (forall mtime c age,
     fs w !! path = Some (File mtime c) ->
     Float64.sub (clock K) mtime = Float64.Finite age ->
     ((inject_Z (cache_max_age env) <= age)%Q ->
      resolve_answers rev K cd env query tags w = fetch_branch rev K env query tags path w) /\
     ((age < inject_Z (cache_max_age env))%Q ->
      resolve_answers rev K cd env query tags w = load_branch path w) /\
     ((age == inject_Z (cache_max_age env))%Q ->
      resolve_answers rev K cd env query tags w = fetch_branch rev K env query tags path w) /\
     ((age == inject_Z (cache_max_age env) - 1)%Q ->
      resolve_answers rev K cd env query tags w = load_branch path w)).
Proof.
  intros Hp. rewrite (resolve_answers_run rev K cd env query tags path w Hp).
  split; [|split; [|split]].
  - intros Hmiss. unfold stale_in. unfold is_file_in in Hmiss.
    destruct (fs w !! path) as [[mtime c|mtime]|]; [discriminate|reflexivity|reflexivity].
  - intros mtime c Hf Hage. now rewrite (stale_in_file K env (fs w) path mtime c Hf), Hage.
  - intros mtime c Hf Hage. rewrite (stale_in_file K env (fs w) path mtime c Hf), Hage.
    split; [reflexivity|]. rewrite load_branch_run. reflexivity.
  - intros mtime c age Hf Hsub.
    rewrite (stale_in_file K env (fs w) path mtime c Hf), Hsub. cbn [Float64.ge_int].
    assert (Hold : (inject_Z (cache_max_age env) <= age)%Q ->
                   Qle_bool (inject_Z (cache_max_age env)) age = true)
      by (intros H; now apply Qle_bool_iff).
    assert (Hnew : (age < inject_Z (cache_max_age env))%Q ->
                   Qle_bool (inject_Z (cache_max_age env)) age = false).
    { intros H. destruct (Qle_bool _ _) eqn:E; [|reflexivity].
      apply Qle_bool_iff in E. exfalso. eapply Qlt_not_le; eassumption. }
    split; [|split; [|split]].
    + intros H. now rewrite (Hold H).
    + intros H. now rewrite (Hnew H).
    + intros H. rewrite Hold; [reflexivity|]. rewrite H. apply Qle_refl.
    + intros H. rewrite Hnew; [reflexivity|]. rewrite H.
      unfold Qlt, Qminus, Qplus, Qopp, inject_Z. simpl. lia.
Qed.

Lemma demo_path_derived :
  get_answers_cache demo_cd (site_id demo_env) (lit "q") [] = Ok demo_path.
Proof. vm_compute. reflexivity. Qed.

Lemma C2_freshness_check_witness :
  resolve_answers Script (demo_K 5 0 []) demo_cd demo_env (lit "q") []
    (demo_world 91 (WellFormed [demo_answer]))
  = load_branch demo_path (demo_world 91 (WellFormed [demo_answer])) /\
  resolve_answers Script (demo_K 5 0 []) demo_cd demo_env (lit "q") []
    (demo_world 90 (WellFormed [demo_answer]))
  = fetch_branch Script (demo_K 5 0 []) demo_env (lit "q") [] demo_path
      (demo_world 90 (WellFormed [demo_answer])).
Proof.
  split.
  - destruct (C2_freshness_check Script (demo_K 5 0 []) demo_cd demo_env (lit "q") []
                demo_path (demo_world 91 (WellFormed [demo_answer])) demo_path_derived)
      as (_ & _ & _ & H).
    destruct (H 91%Q (WellFormed [demo_answer]) 9%Q eq_refl eq_refl) as (_ & _ & _ & H9).
    apply H9. reflexivity.
  - destruct (C2_freshness_check Script (demo_K 5 0 []) demo_cd demo_env (lit "q") []
                demo_path (demo_world 90 (WellFormed [demo_answer])) demo_path_derived)
      as (_ & _ & _ & H).
    destruct (H 90%Q (WellFormed [demo_answer]) 10%Q eq_refl eq_refl) as (_ & _ & H10 & _).
    apply H10. reflexivity.
Defined.

(** ** A cache file that does not load *)

(** C3 (as stated, refuted): a fresh cache file that does not decompress. The
    remote is never asked; the one item printed is the error. *)
Lemma C3_corrupt_cache_not_refetched :
  let out := do_search Script (demo_K 5 0 []) demo_cd demo_env (lit "q") [] []
               (demo_world 95 (Malformed BadGzipFile)) in
  fst out = [ErrorItem BadGzipFile] /\
  log (snd out) = [EvLoad demo_path] /\
  fs (snd out) = fs (demo_world 95 (Malformed BadGzipFile)).
Proof. vm_compute. repeat split. Qed.

(** C3 (amended): when the cache file is fresh (the age the code computes is
    below [cache_max_age]) and loading it raises [e], the
    load path is taken and nothing else happens: no request is made, the file
    stays as it is, the exception leaves [do_search]'s body, and the decorator
    prints one error item for it. *)
Theorem C3_corrupt_cache_surfaces (rev : revision) (K : Collaborators)
    (cd : CacheDirectory) (env : EnvParams) (query : str) (tags : list str)
    (additional_query : str) (path : str) (w : world Answer) (mtime : Q) (e : exn) :
  get_answers_cache cd (site_id env) query tags = Ok path ->
  fs w !! path = Some (File mtime (Malformed e)) ->
  Float64.ge_int (Float64.sub (clock K) mtime) (cache_max_age env) = false ->
  do_search_body rev K cd env query tags additional_query w
  = (Raise e, mkWorld (fs w) (log w ++ [EvLoad path])) /\
  do_search rev K cd env query tags additional_query w
  = ([ErrorItem e], mkWorld (fs w) (log w ++ [EvLoad path])).
Proof.
  intros Hp Hf Hage.
  assert (Hbody : do_search_body rev K cd env query tags additional_query w
                  = (Raise e, mkWorld (fs w) (log w ++ [EvLoad path]))).
  { unfold do_search_body, bind at 1.
    rewrite (resolve_answers_run rev K cd env query tags path w Hp).
    rewrite (stale_in_file K env (fs w) path mtime (Malformed e) Hf), Hage.
    rewrite load_branch_run, Hf. reflexivity. }
  split; [exact Hbody|].
  unfold do_search, response_written. rewrite Hbody. reflexivity.
Qed.

Lemma C3_corrupt_cache_surfaces_witness :
  do_search Packaged (demo_K 5 0 []) demo_cd demo_env (lit "q") [] (lit "x")
    (demo_world 95 (Malformed EOFError))
  = ([ErrorItem EOFError],
     mkWorld (fs (demo_world 95 (Malformed EOFError))) [EvLoad demo_path]).
Proof.
  apply (C3_corrupt_cache_surfaces Packaged (demo_K 5 0 []) demo_cd demo_env (lit "q") []
           (lit "x") demo_path (demo_world 95 (Malformed EOFError)) 95%Q EOFError).
  - exact demo_path_derived.
  - reflexivity.
  - reflexivity.
Defined.

(** ** The quota warning *)

Lemma render_run (cd : CacheDirectory) (env : EnvParams) (quota : Z)
    (answers : list Answer) (w : world Answer) :
  exists rest,
    render cd env quota answers w
    = (Ok ((if (quota <? 10)%Z then [QuotaWarning quota] else []) ++ rest), w) /\
    forall q, ~ In (QuotaWarning q) rest.
Proof.
  unfold render.
  exists (List.map (answer_item cd env (fs w)) answers
          ++ match answers with [] => [NoAnswerFound] | _ => [] end).
  split.
  - destruct answers; cbv zeta;
      [rewrite app_assoc; reflexivity|rewrite app_nil_r; reflexivity].
  - intros q Hin. apply in_app_or in Hin. destruct Hin as [Hin|Hin].
    + apply in_map_iff in Hin. destruct Hin as [a [Ha _]]. discriminate.
    + destruct answers; simpl in Hin; [|contradiction].
      destruct Hin as [Hin|[]]. discriminate.
Qed.

(** The quota the fetch path returns is the one in the response. *)
Lemma fetch_branch_quota (rev : revision) (K : Collaborators) (env : EnvParams)
    (query : str) (tags : list str) (path : str) (w w' : world Answer)
    (answers : list Answer) (quota : Z) :
  fetch_branch rev K env query tags path w = (Ok (answers, quota), w') ->
  exists resp,
    http_get_json K search_url (search_params rev query tags (site_id env) env) = Ok resp /\
    resp_quota_remaining resp = Some quota.
Proof.
  unfold fetch_branch, request_parse_search_api, dump_answers_to_cache, dump_to_cache,
    run_ops, dump_ops, run_op, apply_op, bind, emit, lift, get_key, ret, raise. simpl.
  destruct (http_get_json K _ _) as [resp|e]; simpl; [|discriminate].
  destruct (resp_items resp) as [items|]; simpl; [|discriminate].
  destruct (resp_quota_remaining resp) as [q|] eqn:Eq; simpl; [|discriminate].
  destruct (fs w !! path) as [[mtime c|mtime]|]; simpl; intros H; inversion H; subst; eauto.
Qed.

Lemma load_branch_quota (path : str) (w w' : world Answer)
    (answers : list Answer) (quota : Z) :
  load_branch path w = (Ok (answers, quota), w') -> quota = 9999999%Z.
Proof.
  rewrite load_branch_run.
  destruct (fs w !! path) as [[mtime [rows|e]|mtime]|]; intros H; inversion H; reflexivity.
Qed.

(** The warning and the body of [do_search], when the body returns. *)
Lemma quota_warning_of_body (rev : revision) (K : Collaborators) (cd : CacheDirectory)
    (env : EnvParams) (query : str) (tags : list str) (additional_query : str)
    (w w' : world Answer) (items : list item) :
  do_search_body rev K cd env query tags additional_query w = (Ok items, w') ->
  exists path,
    get_answers_cache cd (site_id env) query tags = Ok path /\
    ((exists q, In (QuotaWarning q) items) <->
     (stale_in K env (fs w) path = true /\
      exists resp q,
        http_get_json K search_url (search_params rev query tags (site_id env) env) = Ok resp /\
        resp_quota_remaining resp = Some q /\ (q < 10)%Z)) /\
    (forall q, In (QuotaWarning q) items ->
       hd_error items = Some (QuotaWarning q) /\
       exists resp,
         http_get_json K search_url (search_params rev query tags (site_id env) env) = Ok resp /\
         resp_quota_remaining resp = Some q) /\
    (stale_in K env (fs w) path = false -> forall q, ~ In (QuotaWarning q) items).
Proof.
  intros Hrun.
  destruct (get_answers_cache cd (site_id env) query tags) as [path|e] eqn:Hp.
  2:{ unfold do_search_body, resolve_answers, bind, lift in Hrun.
      rewrite Hp in Hrun. discriminate. }
  exists path. split; [reflexivity|].
  unfold do_search_body in Hrun. unfold bind at 1 in Hrun.
  rewrite (resolve_answers_run rev K cd env query tags path w Hp) in Hrun.
  destruct (stale_in K env (fs w) path) eqn:Hstale.
  - destruct (fetch_branch rev K env query tags path w) as [[[answers quota]|e] w1] eqn:Hfetch;
      [|discriminate].
    destruct (fetch_branch_quota _ _ _ _ _ _ _ _ _ _ Hfetch) as (resp & Hhttp & Hq).
    unfold bind in Hrun.
    destruct (narrow rev K additional_query answers w1) as [[answers'|e] w2]; [|discriminate].
    destruct (render_run cd env quota answers' w2) as (rest & Hrender & Hrest).
    rewrite Hrender in Hrun. inversion Hrun. subst. clear Hrun.
    destruct (Z.ltb_spec quota 10) as [Hlt|Hge]; simpl.
    + split; [|split].
      * split; [intros _; split; [reflexivity|]; eauto|intros _; eauto].
      * intros q [Hin|Hin]; [|exfalso; eapply Hrest; exact Hin].
        inversion Hin. subst. split; [reflexivity|eauto].
      * discriminate.
    + split; [|split].
      * split.
        -- intros [q Hin]. exfalso. eapply Hrest; exact Hin.
        -- intros (_ & resp' & q & Hhttp' & Hq' & Hlt).
           rewrite Hhttp in Hhttp'. inversion Hhttp'. subst.
           rewrite Hq in Hq'. inversion Hq'. lia.
      * intros q Hin. exfalso. eapply Hrest; exact Hin.
      * discriminate.
  - destruct (load_branch path w) as [[[answers quota]|e] w1] eqn:Hload; [|discriminate].
    apply load_branch_quota in Hload. subst quota.
    unfold bind in Hrun.
    destruct (narrow rev K additional_query answers w1) as [[answers'|e] w2]; [|discriminate].
    destruct (render_run cd env 9999999 answers' w2) as (rest & Hrender & Hrest).
    rewrite Hrender in Hrun. inversion Hrun. subst. clear Hrun. simpl.
    split; [|split].
    + split.
      * intros [q Hin]. exfalso. eapply Hrest; exact Hin.
      * intros [Habs _]. discriminate.
    + intros q Hin. exfalso. eapply Hrest; exact Hin.
    + intros _ q Hin. eapply Hrest; exact Hin.
Qed.

Example quota_warning_shown :
  fst (do_search Script (demo_K 5 0 []) demo_cd demo_env (lit "q") [] [] (mkWorld ∅ []))
  = QuotaWarning 5
      :: List.map (fun a => AnswerItem a (lit "icon.png"))
           (sort_desc (fun a => Z.b2z (is_answered a))
              (List.map (parse_item (demo_K 5 0 [])) demo_items)).
Proof. vm_compute. reflexivity. Qed.

(** C7 (as stated, refuted): the fetch path is taken and the response says
    quota 5, but fzf exits with status 2: the one item printed is the error,
    and no warning. *)
Lemma C7_warning_lost_when_body_raises :
  let K := demo_K 5 2 [] in
  let out := do_search Script K demo_cd demo_env (lit "q") [] (lit "x") (mkWorld ∅ []) in
  stale_in K demo_env ∅ demo_path = true /\
  http_get_json K search_url (search_params Script (lit "q") [] (site_id demo_env) demo_env)
  = Ok (mkResponse (Some demo_items) (Some 5%Z)) /\
  In (EvRequest search_url (search_params Script (lit "q") [] (site_id demo_env) demo_env))
     (log (snd out)) /\
  fst out = [ErrorItem (UnboundLocalError "resp")] /\
  forall q, ~ In (QuotaWarning q) (fst out).
Proof.
  cbv zeta. split; [reflexivity|]. split; [reflexivity|].
  split; [vm_compute; left; reflexivity|].
  assert (E : fst (do_search Script (demo_K 5 2 []) demo_cd demo_env (lit "q") [] (lit "x")
                     (mkWorld ∅ [])) = [ErrorItem (UnboundLocalError "resp")])
    by (vm_compute; reflexivity).
  split; [exact E|]. intros q. rewrite E. intros [H|[]]. discriminate.
Qed.

(** C7 (amended): the low-quota warning is among the items [do_search] prints
    exactly when its body ran to the end without raising, the fetch path was
    taken, and the response said [quota_remaining < 10]; it then comes first
    and carries that quota. When the body raises, also after such a fetch,
    the one item printed is the error. After a load from the cache there is
    no warning. *)
Theorem C7_quota_warning (rev : revision) (K : Collaborators) (cd : CacheDirectory)
    (env : EnvParams) (query : str) (tags : list str) (additional_query : str)
    (w : world Answer) :
  let items := fst (do_search rev K cd env query tags additional_query w) in
  let params := search_params rev query tags (site_id env) env in
  ((exists q, In (QuotaWarning q) items) <->
   (exists path body_items w' resp q,
      get_answers_cache cd (site_id env) query tags = Ok path /\
      do_search_body rev K cd env query tags additional_query w = (Ok body_items, w') /\
      stale_in K env (fs w) path = true /\
      http_get_json K search_url params = Ok resp /\
      resp_quota_remaining resp = Some q /\ (q < 10)%Z)) /\
  (forall q, In (QuotaWarning q) items ->
     hd_error items = Some (QuotaWarning q) /\
     exists resp, http_get_json K search_url params = Ok resp /\
                  resp_quota_remaining resp = Some q) /\
  (forall path,
     get_answers_cache cd (site_id env) query tags = Ok path ->
     stale_in K env (fs w) path = false ->
     forall q, ~ In (QuotaWarning q) items) /\
  (forall e,
     fst (do_search_body rev K cd env query tags additional_query w) = Raise e ->
     items = [ErrorItem e]).
Proof.
  cbv zeta. unfold do_search, response_written.
  destruct (do_search_body rev K cd env query tags additional_query w)
    as [[items|e] w'] eqn:Hbody; cbn [fst].
  - destruct (quota_warning_of_body rev K cd env query tags additional_query w w' items Hbody)
      as (path & Hp & Hiff & Hhd & Hload).
    split; [|split; [|split]].
    + split.
      * intros Hin. apply Hiff in Hin. destruct Hin as (Hstale & resp & q & H1 & H2 & H3).
        exists path, items, w', resp, q. auto 10.
      * intros (path' & items' & w'' & resp & q & Hp' & _ & Hstale & H1 & H2 & H3).
        apply Hiff. rewrite Hp in Hp'. inversion Hp'. subst. eauto 10.
    + exact Hhd.
    + intros path' Hp' Hfresh. rewrite Hp in Hp'. inversion Hp'. subst. now apply Hload.
    + intros e He. discriminate.
  - split; [|split; [|split]].
    + split.
      * intros [q [H|[]]]. discriminate.
      * intros (path' & items' & w'' & resp & q & _ & H & _). discriminate.
    + intros q [H|[]]. discriminate.
    + intros path' _ _ q [H|[]]. discriminate.
    + intros e' [= <-]. reflexivity.
Qed.

Lemma load_branch_no_fzf (path : str) (w : world Answer) :
  List.filter is_fzf_event (log (snd (load_branch path w)))
  = List.filter is_fzf_event (log w).
Proof.
  rewrite load_branch_run. simpl. rewrite List.filter_app. simpl. apply app_nil_r.
Qed.

Lemma fetch_branch_no_fzf (rev : revision) (K : Collaborators) (env : EnvParams)
    (query : str) (tags : list str) (path : str) (w : world Answer) :
  List.filter is_fzf_event (log (snd (fetch_branch rev K env query tags path w)))
  = List.filter is_fzf_event (log w).
Proof.
  destruct (fetch_branch_log rev K env query tags path w) as (evs & -> & Hevs).
  rewrite List.filter_app. simpl.
  replace (List.filter is_fzf_event evs) with (@nil event); [apply app_nil_r|].
  induction Hevs as [|ev evs Hev _ IH]; [reflexivity|].
  simpl. destruct ev; simpl; try exact IH. contradiction.
Qed.

Lemma resolve_answers_no_fzf (rev : revision) (K : Collaborators) (cd : CacheDirectory)
    (env : EnvParams) (query : str) (tags : list str) (w : world Answer) :
  List.filter is_fzf_event (log (snd (resolve_answers rev K cd env query tags w)))
  = List.filter is_fzf_event (log w).
Proof.
  destruct (get_answers_cache cd (site_id env) query tags) as [path|e] eqn:Hp.
  - rewrite (resolve_answers_run rev K cd env query tags path w Hp).
    destruct (stale_in K env (fs w) path).
    + apply fetch_branch_no_fzf.
    + apply load_branch_no_fzf.
  - unfold resolve_answers, bind, lift. rewrite Hp. reflexivity.
Qed.

(** C10: with an empty secondary filter the narrowing stage returns the answers
    it was given and touches nothing: [do_search] renders the list that the
    fetch or load path returned, and no fzf process is run. *)
Theorem C10_empty_filter_identity (rev : revision) (K : Collaborators)
    (cd : CacheDirectory) (env : EnvParams) (query : str) (tags : list str)
    (answers : list Answer) (w : world Answer) :
  narrow rev K [] answers w = (Ok answers, w) /\
  do_search_body rev K cd env query tags [] w
  = (let* (answers, quota_remaining) := resolve_answers rev K cd env query tags in
     render cd env quota_remaining answers) w /\
  List.filter is_fzf_event (log (snd (do_search rev K cd env query tags [] w)))
  = List.filter is_fzf_event (log w).
Proof.
  split; [reflexivity|].
  assert (Hbody : do_search_body rev K cd env query tags [] w
    = (let* (answers, quota_remaining) := resolve_answers rev K cd env query tags in
       render cd env quota_remaining answers) w).
  { unfold do_search_body, bind.
    destruct (resolve_answers rev K cd env query tags w) as [[[a q]|e] w1]; reflexivity. }
  split; [exact Hbody|].
  unfold do_search, response_written. rewrite Hbody. unfold bind.
  pose proof (resolve_answers_no_fzf rev K cd env query tags w) as Hlog.
  destruct (resolve_answers rev K cd env query tags w) as [[[a q]|e] w1]; simpl in *.
  - exact Hlog.
  - exact Hlog.
Qed.

(** C9 (as stated, refuted): while new answers are being stored over old ones,
    there is a state of the disk in which the cache file is neither: it is
    empty, and loading it raises. *)
Lemma C9_reader_sees_truncated_file :
  let K := demo_K 5 0 [] in
  let old := [demo_answer] in
  let new := [mkAnswer (lit "U") (lit "l2") [] true 2] in
  exists m,
    In m (observable K (dump_ops new demo_path) (fs (demo_world 95 (WellFormed old)))) /\
    m !! demo_path = Some (File 100 empty_content) /\
    m !! demo_path <> Some (File 95 (WellFormed old)) /\
    m !! demo_path <> Some (File 100 (WellFormed new)) /\
    fst (load_answers_from_cache demo_path (mkWorld m [])) = Raise JSONDecodeError.
Proof.
  cbv zeta.
  exists (<[demo_path := File 100 empty_content]> (fs (demo_world 95 (WellFormed [demo_answer])))).
  split; [right; left; reflexivity|].
  split; [reflexivity|]. split; [discriminate|]. split; [discriminate|].
  reflexivity.
Qed.

Lemma dump_to_cache_run {A : Type} (K : Collaborators) (rows : list A) (path : str)
    (w : world A) :
  (forall mtime, fs w !! path <> Some (Dir mtime)) ->
  dump_to_cache K rows path w
  = (Ok tt, mkWorld (<[path := File (file_time K) (WellFormed rows)]> (fs w))
                    (log w ++ [EvOpenWrite path])).
Proof.
  intros Hnd.
  unfold dump_to_cache, run_ops, dump_ops, run_op, apply_op, bind, emit, ret.
  cbn [fs log].
  destruct (fs w !! path) as [[mtime c|mtime]|] eqn:E; cbn [fs log].
  - now rewrite insert_insert_eq.
  - exfalso. exact (Hnd mtime eq_refl).
  - now rewrite insert_insert_eq.
Qed.

Lemma observable_dump {A : Type} (K : Collaborators) (rows : list A) (path : str)
    (m : gmap (list N) (node A)) :
  (forall mtime, m !! path <> Some (Dir mtime)) ->
  observable K (dump_ops rows path) m
  = [m; <[path := File (file_time K) empty_content]> m;
     <[path := File (file_time K) (WellFormed rows)]> m].
Proof.
  intros Hnd. unfold dump_ops, observable, apply_op.
  destruct (m !! path) as [[mtime c|mtime]|] eqn:E.
  - now rewrite insert_insert_eq.
  - exfalso. exact (Hnd mtime eq_refl).
  - now rewrite insert_insert_eq.
Qed.

(** C9 (amended): storing answers, and storing sites, opens the destination
    path itself for writing and writes the list to it; there is no temporary
    file and no rename, and no other path is touched at any moment. When the
    destination is not a directory the store succeeds and ends with the
    complete new list there. Among the states of the disk a reader can meet on
    the way there is one with the destination truncated to an empty file,
    which is neither the old nor the new contents. *)
Theorem C9_dump_in_place (K : Collaborators) :
  (forall (A : Type) (rows : list A) (path : str) (m : gmap (list N) (node A)),
     Forall (fun op => op_path op = path) (dump_ops rows path) /\
     ((forall mtime, m !! path <> Some (Dir mtime)) ->
      let states := observable K (dump_ops rows path) m in
      hd_error states = Some m /\
      In (<[path := File (file_time K) empty_content]> m) states /\
      List.last states m = <[path := File (file_time K) (WellFormed rows)]> m /\
      forall m', In m' states ->
        forall other, other <> path -> m' !! other = m !! other)) /\
  (forall answers path w,
     (forall mtime, fs w !! path <> Some (Dir mtime)) ->
     dump_answers_to_cache K answers path w
     = (Ok tt, mkWorld (<[path := File (file_time K) (WellFormed answers)]> (fs w))
                       (log w ++ [EvOpenWrite path]))) /\
  (forall sites path w,
     (forall mtime, fs w !! path <> Some (Dir mtime)) ->
     dump_sites_to_cache K sites path w
     = (Ok tt, mkWorld (<[path := File (file_time K) (WellFormed sites)]> (fs w))
                       (log w ++ [EvOpenWrite path]))).
Proof.
  split; [|split].
  - intros A rows path m. split; [repeat constructor|].
    intros Hnd. cbv zeta. rewrite (observable_dump K rows path m Hnd).
    split; [reflexivity|]. split; [right; left; reflexivity|]. split; [reflexivity|].
    intros m' Hin other Hne.
    destruct Hin as [<-|[<-|[<-|[]]]]; [reflexivity| |]; now apply lookup_insert_ne.
  - intros answers path w Hnd. apply dump_to_cache_run. exact Hnd.
  - intros sites path w Hnd. apply dump_to_cache_run. exact Hnd.
Qed.

Lemma find_app_first {A : Type} (p : A -> bool) (l1 l2 : list A) :
  List.find p (l1 ++ l2)
  = match List.find p l1 with Some x => Some x | None => List.find p l2 end.
Proof.
  induction l1 as [|x l1 IH]; [reflexivity|].
  cbn [app List.find]. destruct (p x); [reflexivity|exact IH].
Qed.

Section DictFacts.
Context {V : Type} (key : V -> list N).

Lemma dict_keys_set (d : list (list N * V)) (k : str) (v : V) :
  dict_keys (dict_set d k v)
  = if bool_decide (k ∈ dict_keys d) then dict_keys d else dict_keys d ++ [k].
Proof.
  unfold dict_keys. induction d as [|[k' v'] d IH].
  - cbn [dict_set List.map fst]. rewrite bool_decide_eq_false_2; [reflexivity|].
    apply not_elem_of_nil.
  - cbn [dict_set List.map fst].
    destruct (decide (k' = k)) as [->|Hne].
    + rewrite bool_decide_eq_true_2 by reflexivity.
      rewrite bool_decide_eq_true_2 by apply list_elem_of_here. reflexivity.
    + rewrite (bool_decide_eq_false_2 (k' = k)) by exact Hne.
      cbn [List.map fst]. rewrite IH.
      destruct (decide (k ∈ List.map fst d)) as [Hin|Hnin].
      * rewrite bool_decide_eq_true_2 by exact Hin.
        rewrite bool_decide_eq_true_2 by (apply list_elem_of_further; exact Hin).
        reflexivity.
      * rewrite bool_decide_eq_false_2 by exact Hnin.
        rewrite bool_decide_eq_false_2; [reflexivity|].
        intros H. apply elem_of_cons in H. destruct H as [H|H]; [congruence|contradiction].
Qed.

Lemma unseen_ext (seen seen' l : list (list N)) :
  (forall x, x ∈ seen <-> x ∈ seen') -> unseen seen l = unseen seen' l.
Proof.
  revert seen seen'. induction l as [|x l IH]; intros seen seen' H; [reflexivity|].
  cbn [unseen].
  rewrite (bool_decide_ext (x ∈ seen) (x ∈ seen')) by apply H.
  destruct (bool_decide (x ∈ seen')); [now apply IH|].
  f_equal. apply IH. intros y. rewrite !elem_of_cons. now rewrite H.
Qed.

Lemma dict_keys_fold (l : list V) (d : list (list N * V)) :
  dict_keys (fold_left (fun d a => dict_set d (key a) a) l d)
  = dict_keys d ++ unseen (dict_keys d) (List.map key l).
Proof.
  revert d. induction l as [|a l IH]; intros d.
  - cbn [fold_left List.map unseen]. now rewrite app_nil_r.
  - cbn [fold_left List.map unseen]. rewrite IH, dict_keys_set.
    destruct (bool_decide (key a ∈ dict_keys d)); [reflexivity|].
    rewrite <- app_assoc. cbn [app]. do 2 f_equal.
    apply unseen_ext. intros x. rewrite elem_of_app, !elem_of_cons, elem_of_nil.
    tauto.
Qed.

Lemma dict_get_set (d : list (list N * V)) (k t : str) (v : V) :
  dict_get (dict_set d k v) t = if bool_decide (k = t) then Ok v else dict_get d t.
Proof.
  induction d as [|[k' v'] d IH].
  - reflexivity.
  - cbn [dict_set dict_get].
    destruct (decide (k' = k)) as [->|Hne].
    + rewrite (bool_decide_eq_true_2 (k = k)) by reflexivity. cbn [dict_get].
      destruct (bool_decide (k = t)); reflexivity.
    + rewrite (bool_decide_eq_false_2 (k' = k)) by exact Hne. cbn [dict_get].
      rewrite IH.
      destruct (decide (k' = t)) as [->|Hne'].
      * rewrite (bool_decide_eq_true_2 (t = t)) by reflexivity.
        rewrite (bool_decide_eq_false_2 (k = t)) by congruence. reflexivity.
      * rewrite (bool_decide_eq_false_2 (k' = t)) by exact Hne'. reflexivity.
Qed.

Lemma dict_get_fold (l : list V) (d : list (list N * V)) (t : str) :
  dict_get (fold_left (fun d a => dict_set d (key a) a) l d) t
  = match List.find (fun a => bool_decide (key a = t)) (rev l) with
    | Some a => Ok a
    | None => dict_get d t
    end.
Proof.
  revert d. induction l as [|a l IH]; intros d; [reflexivity|].
  cbn [fold_left rev]. rewrite IH, find_app_first.
  destruct (List.find _ (rev l)); [reflexivity|].
  cbn [List.find]. rewrite dict_get_set. destruct (bool_decide (key a = t)); reflexivity.
Qed.
End DictFacts.

Lemma dict_by_keys (answers : list Answer) :
  dict_keys (dict_by title answers) = first_occurrences (List.map title answers).
Proof. unfold dict_by. now rewrite dict_keys_fold. Qed.

Lemma dict_by_get (answers : list Answer) (t : str) :
  dict_get (dict_by title answers) t
  = match last_with_title answers t with
    | Some a => Ok a
    | None => Raise (KeyError t)
    end.
Proof. unfold dict_by. now rewrite dict_get_fold. Qed.

Lemma dict_by_get_all (answers : list Answer) (titles : list (list N)) :
  dict_get_all (dict_by title answers) titles = pick_all answers titles.
Proof.
  induction titles as [|t titles IH]; simpl; [reflexivity|].
  rewrite dict_by_get, IH. destruct (last_with_title answers t); reflexivity.
Qed.

Lemma pick_all_spec (answers : list Answer) (titles : list (list N)) (out : list Answer) :
  pick_all answers titles = Ok out ->
  List.map title out = titles /\
  Forall2 (fun t a => last_with_title answers t = Some a) titles out /\
  Forall (fun a => In a answers) out.
Proof.
  revert out. induction titles as [|t titles IH]; intros out; simpl.
  - intros H. inversion H. repeat split; constructor.
  - destruct (last_with_title answers t) as [a|] eqn:Ea; [|discriminate].
    destruct (pick_all answers titles) as [rest|e]; [|discriminate].
    intros H. inversion H. subst. destruct (IH rest eq_refl) as (H1 & H2 & H3).
    pose proof Ea as Ea'. unfold last_with_title in Ea'. apply find_some in Ea'.
    destruct Ea' as [Hin Ht]. apply bool_decide_eq_true in Ht.
    repeat split.
    + simpl. now rewrite Ht, H1.
    + constructor; assumption.
    + constructor; [|exact H3]. apply in_rev. exact Hin.
Qed.

(** C5 (as stated, refuted): two answers share a title; the filter returns the
    title; the answer kept is the second one, not the first. *)
Lemma C5_last_duplicate_wins :
  let first := mkAnswer (lit "T") (lit "l3") [] true 3 in
  let second := mkAnswer (lit "T") (lit "l1") [] false 1 in
  fst (narrow Script (demo_K 5 0 (lit "T" ++ [10])) (lit "x") [first; second]
         (mkWorld ∅ []))
  = Ok [second] /\ first <> second.
Proof. cbv zeta. split; [vm_compute; reflexivity|discriminate]. Qed.

(** C5 (amended): with a non-empty secondary filter, fzf is run once, on the
    titles in the order they first occur, one per line. When it exits with
    status 0 the answers kept are, for each line it printed and in the order
    it printed them, the last answer that has that title; a printed line that
    is no title raises [KeyError]. Every answer whose title is not printed is
    dropped. When fzf exits with status 1 nothing is kept. *)
Theorem C5_narrow_by_filter (rev : revision) (K : Collaborators)
    (additional_query : str) (answers : list Answer) (w : world Answer) :
  truthy additional_query = true ->
  let candidates := first_occurrences (List.map title answers) in
  let w' := mkWorld (fs w) (log w ++ [EvFzf additional_query (fzf_input candidates)]) in
  (forall stdout,
     fzf K additional_query (fzf_input candidates) = Exited 0 stdout ->
     narrow rev K additional_query answers w
     = (pick_all answers (findall_lines stdout), w') /\
     forall out,
       pick_all answers (findall_lines stdout) = Ok out ->
       List.map title out = findall_lines stdout /\
       Forall2 (fun t a => last_with_title answers t = Some a) (findall_lines stdout) out /\
       Forall (fun a => In a answers) out) /\
  (forall stdout,
     fzf K additional_query (fzf_input candidates) = Exited 1 stdout ->
     narrow rev K additional_query answers w = (Ok [], w')).
Proof.
  intros Haq candidates w'. unfold narrow. rewrite Haq.
  unfold request_fzf, bind, emit, lift, ret. rewrite dict_by_keys.
  fold candidates. simpl. split.
  - intros stdout Hfzf. rewrite Hfzf. simpl. rewrite dict_by_get_all.
    split; [reflexivity|]. intros out. apply pick_all_spec.
  - intros stdout Hfzf. rewrite Hfzf. reflexivity.
Qed.

Lemma C5_narrow_by_filter_witness :
  narrow Script (demo_K 5 0 (lit "U" ++ [10] ++ lit "T" ++ [10])) (lit "x")
    (List.map (parse_item (demo_K 5 0 [])) demo_items) (mkWorld ∅ [])
  = (Ok [mkAnswer (lit "U") (lit "l2") [] true 2; mkAnswer (lit "T") (lit "l3") [] true 3],
     mkWorld ∅ [EvFzf (lit "x") (lit "T" ++ [10] ++ lit "U" ++ [10])]).
Proof.
  destruct (C5_narrow_by_filter Script (demo_K 5 0 (lit "U" ++ [10] ++ lit "T" ++ [10]))
              (lit "x") (List.map (parse_item (demo_K 5 0 [])) demo_items)
              (mkWorld ∅ []) eq_refl) as [H _].
  destruct (H (lit "U" ++ [10] ++ lit "T" ++ [10]) eq_refl) as [-> _].
  reflexivity.
Defined.

Lemma parse_via_terms_and_filter (s : str) :
  parse_search_query s
  = (query_of (fst (terms_and_filter s)), tags_of (fst (terms_and_filter s)),
     snd (terms_and_filter s)).
Proof.
  apply parse_terms_and_tags. unfold terms_and_filter. cbv zeta.
  destruct (contains (lit "//") (strip s)).
  - destruct (partition (lit "//") (strip s)) as [[rest sep] add]. reflexivity.
  - destruct (endswith (lit "/") (strip s)); reflexivity.
Qed.

Lemma lstrip_blank (s : str) : Forall (fun c => isspace c = true) s -> lstrip s = [].
Proof.
  induction 1 as [|c s Hc _ IH]; [reflexivity|]. cbn [lstrip]. now rewrite Hc.
Qed.

(** Input made of whitespace only (or empty) parses to the empty query, no
    tags and no secondary filter. *)
Theorem parse_blank_input (s : str) :
  Forall (fun c => isspace c = true) s ->
  parse_search_query s = ([], [], []).
Proof.
  intros Hs. rewrite parse_via_terms_and_filter. unfold terms_and_filter, strip. cbv zeta.
  rewrite (lstrip_blank s Hs). reflexivity.
Qed.

Lemma parse_blank_input_witness :
  parse_search_query [32; 9; 0xA0; 0x3000] = ([], [], []).
Proof.
  apply parse_blank_input. repeat constructor.
Defined.

Lemma filter_Forall_keep {A : Type} (P : A -> Prop) (f : A -> bool) (l : list A) :
  Forall P l -> Forall P (List.filter f l).
Proof.
  induction 1 as [|x l Hx _ IH]; [constructor|].
  cbn [List.filter]. destruct (f x); [constructor; assumption|assumption].
Qed.

(** The query that comes back is in normal form: it is its own words joined
    by single spaces, so splitting it again gives those words; none of them
    starts with ['#']; and no tag holds whitespace. *)
Theorem parse_output_normal (s : str) :
  let '(query, tags, _) := parse_search_query s in
  exists words,
    query = join (lit " ") words /\
    split query = words /\
    Forall is_word words /\
    Forall (fun w => is_tag w = false) words /\
    Forall (fun t => Forall (fun c => isspace c = false) t) tags.
Proof.
  rewrite parse_via_terms_and_filter.
  set (rest := fst (terms_and_filter s)).
  exists (List.filter (fun w => negb (is_tag w)) (split rest)).
  assert (Hw : Forall is_word (List.filter (fun w => negb (is_tag w)) (split rest)))
    by apply filter_Forall_keep, split_words.
  split; [reflexivity|]. split; [apply split_join, Hw|]. split; [exact Hw|]. split.
  - apply List.Forall_forall. intros w Hin. apply filter_In in Hin.
    destruct Hin as [_ Hin]. now destruct (is_tag w).
  - unfold tags_of. apply List.Forall_forall. intros t Hin.
    apply in_map_iff in Hin. destruct Hin as (w & <- & Hin).
    apply filter_In in Hin. destruct Hin as [Hin _].
    pose proof (split_words rest) as Hwords.
    rewrite List.Forall_forall in Hwords. destruct (Hwords w Hin) as [_ Hws].
    destruct w as [|c w]; [constructor|]. cbn [tl]. now inversion Hws.
Qed.

(** ** More on [request_fzf] *)

Lemma lines_from_line (cur c rest : str) :
  ~ In 10 c ->
  lines_from cur (c ++ 10 :: rest) = (cur ++ c) :: lines_from [] rest.
Proof.
  revert cur. induction c as [|a c IH]; intros cur Hc.
  - cbn [app lines_from]. rewrite N.eqb_refl. now rewrite app_nil_r.
  - cbn [app lines_from]. destruct (N.eqb_spec a 10) as [->|Hne].
    + exfalso. apply Hc. now left.
    + rewrite IH by (intros H; apply Hc; now right).
      now rewrite <- app_assoc.
Qed.

Lemma lines_from_no_newline (cur t : str) : ~ In 10 t -> lines_from cur t = [].
Proof.
  revert cur. induction t as [|a t IH]; intros cur Ht; [reflexivity|].
  cbn [lines_from]. destruct (N.eqb_spec a 10) as [->|Hne].
  - exfalso. apply Ht. now left.
  - apply IH. intros H. apply Ht. now right.
Qed.

Lemma lines_of_fzf_input (candidates : list (list N)) (tail : str) :
  Forall (fun c => ~ In 10 c) candidates -> ~ In 10 tail ->
  findall_lines (fzf_input candidates ++ tail) = candidates.
Proof.
  unfold findall_lines, fzf_input. intros Hc Ht.
  induction Hc as [|c cs Hc _ IH]; cbn [List.map concat app].
  - now apply lines_from_no_newline.
  - rewrite <- !app_assoc. cbn [app]. rewrite lines_from_line by exact Hc.
    cbn [app]. now rewrite IH.
Qed.

(** What is written to fzf reads back as the candidates, when no candidate
    holds a newline; text after the last newline is dropped. *)
Theorem findall_lines_fzf_input (candidates : list (list N)) (tail : str) :
  Forall (fun c => ~ In 10 c) candidates -> ~ In 10 tail ->
  findall_lines (fzf_input candidates ++ tail) = candidates.
Proof. apply lines_of_fzf_input. Qed.

Lemma findall_lines_fzf_input_witness :
  findall_lines (fzf_input [lit "a b"; []; lit "c"] ++ lit "cut") = [lit "a b"; []; lit "c"].
Proof.
  apply findall_lines_fzf_input.
  - repeat constructor; sep_free_tac.
  - sep_free_tac.
Defined.

(** fzf's exit status decides what [request_fzf] returns: status 1 gives no
    titles whatever was printed; any status but 0 and 1 raises, in the script
    [UnboundLocalError] for the unassigned [resp], in the packaged revision the
    [CalledProcessError] itself. In every case fzf was run once and the disk was
    not touched. *)
Theorem request_fzf_exit_status (rev : revision) (K : Collaborators)
    (query : str) (candidates : list (list N)) (w : world Answer)
    (rc : Z) (stdout : str) :
  fzf K query (fzf_input candidates) = Exited rc stdout ->
  rc <> 0%Z ->
  request_fzf rev K query candidates w
  = (if (rc =? 1)%Z then Ok []
     else match rev with
          | Script => Raise (UnboundLocalError "resp")
          | Packaged => Raise (CalledProcessError rc)
          end,
     mkWorld (fs w) (log w ++ [EvFzf query (fzf_input candidates)])).
Proof.
  intros Hfzf Hrc. unfold request_fzf, bind, emit. cbn [fs log]. rewrite Hfzf.
  destruct (Z.eqb_spec rc 0) as [->|_]; [congruence|].
  destruct (rc =? 1)%Z; [reflexivity|]. destruct rev; reflexivity.
Qed.

Lemma request_fzf_exit_status_witness :
  request_fzf Script (demo_K 5 2 (lit "T" ++ [10])) (lit "x") [lit "T"] (mkWorld ∅ [])
  = (Raise (UnboundLocalError "resp"),
     mkWorld (∅ : gmap (list N) (node Answer)) [EvFzf (lit "x") (lit "T" ++ [10])]).
Proof.
  apply (request_fzf_exit_status Script (demo_K 5 2 (lit "T" ++ [10])) (lit "x") [lit "T"]
           (mkWorld ∅ []) 2%Z (lit "T" ++ [10])).
  - reflexivity.
  - discriminate.
Defined.

(** ** The titles offered to fzf *)

Lemma unseen_spec (seen l : list (list N)) :
  NoDup (unseen seen l) /\
  forall x, x ∈ unseen seen l <-> x ∈ l /\ x ∉ seen.
Proof.
  revert seen. induction l as [|y l IH]; intros seen.
  - cbn [unseen]. split; [constructor|]. intros x. rewrite elem_of_nil. tauto.
  - cbn [unseen]. destruct (decide (y ∈ seen)) as [Hin|Hnin].
    + rewrite bool_decide_eq_true_2 by exact Hin.
      destruct (IH seen) as [Hnd Hmem]. split; [exact Hnd|].
      intros x. rewrite Hmem, elem_of_cons. split; [tauto|].
      intros [[->|Hx] Hs]; [contradiction|tauto].
    + rewrite bool_decide_eq_false_2 by exact Hnin.
      destruct (IH (y :: seen)) as [Hnd Hmem]. split.
      * apply NoDup_cons. split; [|exact Hnd].
        rewrite Hmem, elem_of_cons. tauto.
      * intros x. rewrite !elem_of_cons, Hmem, elem_of_cons.
        destruct (decide (x = y)) as [->|Hne]; tauto.
Qed.

(** The candidate list built from the answers holds every title that occurs,
    each once. *)
Theorem candidates_distinct_and_complete (answers : list Answer) :
  let candidates := dict_keys (dict_by title answers) in
  NoDup candidates /\
  forall t, t ∈ candidates <-> exists a, In a answers /\ title a = t.
Proof.
  cbv zeta. rewrite dict_by_keys. unfold first_occurrences.
  destruct (unseen_spec [] (List.map title answers)) as [Hnd Hmem].
  split; [exact Hnd|]. intros t. rewrite Hmem, list_elem_of_In, in_map_iff.
  split.
  - intros [(a & Ha & Hin) _]. eauto.
  - intros (a & Hin & Ha). split; [eauto|]. apply not_elem_of_nil.
Qed.

Lemma unseen_NoDup_id (seen l : list (list N)) :
  NoDup l -> (forall x, x ∈ l -> x ∉ seen) -> unseen seen l = l.
Proof.
  revert seen. induction l as [|y l IH]; intros seen Hnd Hs; [reflexivity|].
  cbn [unseen]. apply NoDup_cons in Hnd. destruct Hnd as [Hy Hnd].
  rewrite bool_decide_eq_false_2 by (apply Hs; apply list_elem_of_here).
  f_equal. apply IH; [exact Hnd|].
  intros x Hx. rewrite elem_of_cons. intros [->|Hin]; [contradiction|].
  apply (Hs x); [apply list_elem_of_further; exact Hx|exact Hin].
Qed.

Lemma find_rev_unique (answers : list Answer) (a : Answer) :
  NoDup (List.map title answers) -> In a answers ->
  last_with_title answers (title a) = Some a.
Proof.
  unfold last_with_title. induction answers as [|b answers IH]; intros Hnd Hin; [contradiction|].
  cbn [List.map] in Hnd. apply NoDup_cons in Hnd. destruct Hnd as [Hb Hnd].
  cbn [rev]. rewrite find_app_first. destruct Hin as [->|Hin].
  - destruct (List.find _ (rev answers)) as [c|] eqn:Ec.
    + apply find_some in Ec. destruct Ec as [Hc Ht].
      apply bool_decide_eq_true in Ht. exfalso. apply Hb.
      rewrite <- Ht. apply list_elem_of_In, in_map, in_rev. exact Hc.
    + cbn [List.find]. now rewrite bool_decide_eq_true_2.
  - now rewrite IH.
Qed.

Lemma pick_all_titles (answers sub : list Answer) :
  NoDup (List.map title answers) -> (forall a, In a sub -> In a answers) ->
  pick_all answers (List.map title sub) = Ok sub.
Proof.
  intros Hnd. induction sub as [|a sub IH]; intros Hsub; [reflexivity|].
  cbn [List.map pick_all]. rewrite find_rev_unique by (auto; apply Hsub; now left).
  rewrite IH; [reflexivity|]. intros b Hb. apply Hsub. now right.
Qed.

(** When the titles are pairwise distinct and hold neither a newline nor a
    carriage return, and the text that comes back from fzf is the text that
    was written to it (fzf kept every line, in order), narrowing changes
    nothing in the answers. *)
Theorem narrow_echo_identity (rev : revision) (K : Collaborators)
    (additional_query : str) (answers : list Answer) (w : world Answer) :
  truthy additional_query = true ->
  NoDup (List.map title answers) ->
  Forall (fun a => ~ In 10 (title a) /\ ~ In 13 (title a)) answers ->
  fzf K additional_query (fzf_input (List.map title answers))
  = Exited 0 (fzf_input (List.map title answers)) ->
  fst (narrow rev K additional_query answers w) = Ok answers.
Proof.
  intros Haq Hnd Hnl Hfzf. unfold narrow. rewrite Haq.
  unfold request_fzf, bind, emit, lift, ret. rewrite dict_by_keys.
  unfold first_occurrences.
  rewrite unseen_NoDup_id by (auto; intros x _; apply not_elem_of_nil).
  cbn [fs log]. rewrite Hfzf. cbn [Z.eqb fst].
  rewrite <- (app_nil_r (fzf_input (List.map title answers))).
  rewrite lines_of_fzf_input.
  - rewrite dict_by_get_all, pick_all_titles; auto.
  - apply List.Forall_forall. intros t Ht. apply in_map_iff in Ht.
    destruct Ht as (a & <- & Ha). rewrite List.Forall_forall in Hnl.
    exact (proj1 (Hnl a Ha)).
  - intros [].
Qed.

Lemma narrow_echo_identity_witness :
  fst (narrow Script
         (mkCollaborators 100 (fun _ _ => Raise EOFError) (fun _ input => Exited 0 input)
            (fun s => s) 100)
         (lit "x") [demo_answer; mkAnswer (lit "U") (lit "l2") [] true 2] (mkWorld ∅ []))
  = Ok [demo_answer; mkAnswer (lit "U") (lit "l2") [] true 2].
Proof.
  apply narrow_echo_identity.
  - reflexivity.
  - repeat constructor; cbn; rewrite ?elem_of_cons, ?elem_of_nil; intuition discriminate.
  - repeat constructor; sep_free_tac.
  - reflexivity.
Defined.

(** ** More on the search request *)

(** What the request function does, outcome by outcome. *)
Lemma request_parse_search_api_run (rev : revision) (K : Collaborators)
    (query : str) (tags : list (list N)) (env : EnvParams) (w : world Answer) :
  request_parse_search_api rev K query tags (site_id env) env w
  = (match http_get_json K search_url (search_params rev query tags (site_id env) env) with
     | Raise e => Raise e
     | Ok resp =>
         match resp_items resp with
         | None => Raise (KeyError (lit "items"))
         | Some items =>
             match resp_quota_remaining resp with
             | None => Raise (KeyError (lit "quota_remaining"))
             | Some q =>
                 Ok (sort_desc (fun a => Z.b2z (is_answered a))
                               (List.map (parse_item K) items), mkQuotaInfo q)
             end
         end
     end,
     mkWorld (fs w)
       (log w ++ [EvRequest search_url (search_params rev query tags (site_id env) env)])).
Proof.
  unfold request_parse_search_api, bind, emit, lift, get_key, ret, raise. cbn [fs log].
  destruct (http_get_json K _ _) as [resp|e]; [|reflexivity].
  destruct (resp_items resp) as [items|]; [|reflexivity].
  destruct (resp_quota_remaining resp) as [q|]; reflexivity.
Qed.

(** ** More on the fetch-or-load decision *)

(** The freshness test cannot raise and changes nothing: [getmtime] is reached
    only when [is_file] has found the file. It says "load" exactly when the
    path is a regular file and the age the code computes is not at least
    [cache_max_age]. *)
Theorem needs_fetch_total (K : Collaborators) (env : EnvParams) (path : str)
    (w : world Answer) :
  exists b,
    needs_fetch K env path w = (Ok b, w) /\
    (b = false <->
     exists mtime c,
       fs w !! path = Some (File mtime c) /\
       Float64.ge_int (Float64.sub (clock K) mtime) (cache_max_age env) = false).
Proof.
  rewrite needs_fetch_run. eexists. split; [reflexivity|].
  unfold stale_in. destruct (fs w !! path) as [[mtime c|mtime]|].
  - split.
    + intros H. exists mtime, c. split; [reflexivity|exact H].
    + intros (m & c' & E & H). inversion E. subst. exact H.
  - split; [discriminate|]. intros (m & c' & E & _). discriminate.
  - split; [discriminate|]. intros (m & c' & E & _). discriminate.
Qed.

Lemma fetch_branch_run (rev : revision) (K : Collaborators) (env : EnvParams)
    (query : str) (tags : list (list N)) (path : str) (w : world Answer) :
  let req := EvRequest search_url (search_params rev query tags (site_id env) env) in
  fetch_branch rev K env query tags path w
  = match fst (request_parse_search_api rev K query tags (site_id env) env w) with
    | Raise e => (Raise e, mkWorld (fs w) (log w ++ [req]))
    | Ok (answers, qi) =>
        match fs w !! path with
        | Some (Dir _) =>
            (Raise (IsADirectoryError path),
             mkWorld (fs w) (log w ++ [req; EvOpenWrite path]))
        | _ =>
            (Ok (answers, quota_remaining qi),
             mkWorld (<[path := File (file_time K) (WellFormed answers)]> (fs w))
                     (log w ++ [req; EvOpenWrite path]))
        end
    end.
Proof.
  cbv zeta. unfold fetch_branch, bind at 1. rewrite request_parse_search_api_run.
  cbn [fst].
  destruct (http_get_json K _ _) as [resp|e]; [|reflexivity].
  destruct (resp_items resp) as [items|]; [|reflexivity].
  destruct (resp_quota_remaining resp) as [q|]; [|reflexivity].
  unfold dump_answers_to_cache, dump_to_cache, run_ops, dump_ops, run_op, apply_op,
    bind, emit, ret. cbn [fs log].
  destruct (fs w !! path) as [[mtime c|mtime]|];
    cbn [fs log]; rewrite <- ?app_assoc; cbn [app]; rewrite ?insert_insert_eq;
    reflexivity.
Qed.

(** A fetch whose request or parse raises writes nothing: the cache file, if
    there is one, survives as it was. *)
Theorem failed_request_keeps_cache (rev : revision) (K : Collaborators)
    (env : EnvParams) (query : str) (tags : list (list N)) (path : str)
    (w : world Answer) (e : exn) :
  fst (request_parse_search_api rev K query tags (site_id env) env w) = Raise e ->
  fst (fetch_branch rev K env query tags path w) = Raise e /\
  fs (snd (fetch_branch rev K env query tags path w)) = fs w.
Proof.
  intros H. rewrite fetch_branch_run. cbv zeta. rewrite H. split; reflexivity.
Qed.

Lemma failed_request_keeps_cache_witness :
  fs (snd (fetch_branch Script
             (mkCollaborators 100 (fun _ _ => Ok (mkResponse None (Some 5%Z)))
                (fun _ _ => Exited 0 []) (fun s => s) 100)
             demo_env (lit "q") [] demo_path (demo_world 0 (WellFormed [demo_answer]))))
  = fs (demo_world 0 (WellFormed [demo_answer])).
Proof.
  refine (proj2 (failed_request_keeps_cache Script _ demo_env (lit "q") [] demo_path
                   (demo_world 0 (WellFormed [demo_answer])) (KeyError (lit "items")) _)).
  reflexivity.
Defined.

(** ** What [do_search] does to the world *)

Lemma narrow_effects (rev : revision) (K : Collaborators) (additional_query : str)
    (answers : list Answer) (w : world Answer) :
  fs (snd (narrow rev K additional_query answers w)) = fs w /\
  exists evs,
    log (snd (narrow rev K additional_query answers w)) = log w ++ evs /\
    Forall (fun ev => is_fzf_event ev = true) evs.
Proof.
  unfold narrow. destruct (truthy additional_query).
  - unfold request_fzf, bind, emit, lift, ret, raise. cbn [fs log].
    destruct (fzf K additional_query _) as [rc stdout|e];
      [destruct (rc =? 0)%Z; [|destruct (rc =? 1)%Z; [|destruct rev]]|];
      cbn [snd fs log];
      (split; [reflexivity|eexists; split; [reflexivity|repeat constructor]]).
  - split; [reflexivity|]. exists []. split; [now rewrite app_nil_r|constructor].
Qed.

Lemma render_nonempty (cd : CacheDirectory) (env : EnvParams) (quota : Z)
    (answers : list Answer) (w : world Answer) :
  exists it items, render cd env quota answers w = (Ok (it :: items), w).
Proof.
  unfold render. destruct answers as [|a answers]; cbv zeta.
  - destruct (quota <? 10)%Z; cbn; eauto.
  - destruct (quota <? 10)%Z; cbn; eauto.
Qed.

(** Whatever happens, [do_search] prints at least one item: the answers, or
    the notice that there are none, or the error. *)
Theorem do_search_never_silent (rev : revision) (K : Collaborators)
    (cd : CacheDirectory) (env : EnvParams) (query : str) (tags : list (list N))
    (additional_query : str) (w : world Answer) :
  fst (do_search rev K cd env query tags additional_query w) <> [] /\
  (forall e, fst (do_search_body rev K cd env query tags additional_query w) = Raise e ->
     fst (do_search rev K cd env query tags additional_query w) = [ErrorItem e]).
Proof.
  unfold do_search, response_written, do_search_body, bind.
  destruct (resolve_answers rev K cd env query tags w) as [[[answers quota]|e] w1].
  - destruct (narrow rev K additional_query answers w1) as [[answers'|e] w2].
    + destruct (render_nonempty cd env quota answers' w2) as (it & items & ->).
      split; [discriminate|]. intros e. discriminate.
    + split; [discriminate|]. intros e' H. inversion H. reflexivity.
  - split; [discriminate|]. intros e' H. inversion H. reflexivity.
Qed.

(** With a fresh cache file (the age the code computes is below
    [cache_max_age]) [do_search] only reads: the disk is left as it was, and
    the only events are the load and, when there is a secondary filter, the
    fzf run. No request is made, whatever the file holds. *)
Theorem fresh_cache_read_only (rev : revision) (K : Collaborators)
    (cd : CacheDirectory) (env : EnvParams) (query : str) (tags : list (list N))
    (additional_query : str) (path : str) (w : world Answer) (mtime : Q)
    (c : content Answer) :
  get_answers_cache cd (site_id env) query tags = Ok path ->
  fs w !! path = Some (File mtime c) ->
  Float64.ge_int (Float64.sub (clock K) mtime) (cache_max_age env) = false ->
  let w' := snd (do_search rev K cd env query tags additional_query w) in
  fs w' = fs w /\
  exists evs, log w' = log w ++ EvLoad path :: evs /\
              Forall (fun ev => is_fzf_event ev = true) evs.
Proof.
  intros Hp Hf Hage. cbv zeta.
  assert (H : exists evs,
            snd (do_search rev K cd env query tags additional_query w)
            = mkWorld (fs w) (log w ++ EvLoad path :: evs) /\
            Forall (fun ev => is_fzf_event ev = true) evs).
  { unfold do_search, response_written, do_search_body, bind at 1.
    rewrite (resolve_answers_run rev K cd env query tags path w Hp).
    rewrite (stale_in_file K env (fs w) path mtime c Hf), Hage.
    rewrite load_branch_run, Hf.
    destruct c as [rows|e].
    - unfold bind.
      pose proof (narrow_effects rev K additional_query rows
                    (mkWorld (fs w) (log w ++ [EvLoad path])))
        as (Hfs & evs & Hlog & Hevs).
      exists evs. split; [|exact Hevs].
      destruct (narrow rev K additional_query rows _) as [[answers'|e] [m l]];
        cbn [snd fs log] in *; unfold render; cbn [snd];
        rewrite Hfs, Hlog, <- app_assoc; reflexivity.
    - exists []. split; [reflexivity|constructor]. }
  destruct H as (evs & -> & Hevs). cbn [fs log].
  split; [reflexivity|]. exists evs. split; [reflexivity|exact Hevs].
Qed.

Lemma fresh_cache_read_only_witness :
  fs (snd (do_search Script (demo_K 5 0 []) demo_cd demo_env (lit "q") [] (lit "x")
             (demo_world 95 (WellFormed [demo_answer]))))
  = fs (demo_world 95 (WellFormed [demo_answer])).
Proof.
  refine (proj1 (fresh_cache_read_only Script (demo_K 5 0 []) demo_cd demo_env (lit "q") []
                   (lit "x") demo_path (demo_world 95 (WellFormed [demo_answer])) 95%Q
                   (WellFormed [demo_answer]) demo_path_derived _ _)); reflexivity.
Defined.

(** [do_search] writes to no path but the cache file of its query. *)
Theorem do_search_writes_only_its_cache (rev : revision) (K : Collaborators)
    (cd : CacheDirectory) (env : EnvParams) (query : str) (tags : list (list N))
    (additional_query : str) (path other : str) (w : world Answer) :
  get_answers_cache cd (site_id env) query tags = Ok path ->
  other <> path ->
  fs (snd (do_search rev K cd env query tags additional_query w)) !! other
  = fs w !! other.
Proof.
  intros Hp Hne.
  assert (Hres : fs (snd (resolve_answers rev K cd env query tags w)) !! other
                 = fs w !! other).
  { rewrite (resolve_answers_run rev K cd env query tags path w Hp).
    destruct (stale_in K env (fs w) path).
    - rewrite fetch_branch_run. cbv zeta.
      destruct (fst (request_parse_search_api rev K query tags (site_id env) env w))
        as [[a qi]|e]; [|reflexivity].
      destruct (fs w !! path) as [[mtime c|mtime]|]; cbn [snd fs];
        try reflexivity; now apply lookup_insert_ne.
    - rewrite load_branch_run. reflexivity. }
  unfold do_search, response_written, do_search_body, bind.
  destruct (resolve_answers rev K cd env query tags w) as [[[answers quota]|e] w1];
    cbn [snd] in Hres; [|exact Hres].
  pose proof (narrow_effects rev K additional_query answers w1) as (Hfs & _).
  destruct (narrow rev K additional_query answers w1) as [[answers'|e] w2];
    cbn [snd] in *; unfold render; cbn [snd]; now rewrite Hfs.
Qed.

Lemma do_search_writes_only_its_cache_witness :
  fs (snd (do_search Script (demo_K 5 0 []) demo_cd demo_env (lit "q") [] []
             (mkWorld {[ lit "/c/all_sites.json" := Dir 0 ]} [])))
    !! lit "/c/all_sites.json"
  = Some (Dir 0).
Proof.
  rewrite (do_search_writes_only_its_cache Script (demo_K 5 0 []) demo_cd demo_env (lit "q")
             [] [] demo_path (lit "/c/all_sites.json")
             (mkWorld {[ lit "/c/all_sites.json" := Dir 0 ]} []) demo_path_derived).
  - reflexivity.
  - discriminate.
Defined.

(** ** Where the cache files live *)

(** Under one cache directory the three kinds of cache file never share a
    path: an answers file is neither the sites file nor an icon, and the sites
    file is no icon. *)
Theorem cache_paths_disjoint (env : EnvParams) (query : str) (tags : list (list N))
    (site : str) (path : str) :
  let cd := new_CacheDirectory env in
  get_answers_cache cd (site_id env) query tags = Ok path ->
  path <> get_sites_cache cd /\
  path <> get_site_icon_cache cd site /\
  get_sites_cache cd <> get_site_icon_cache cd site.
Proof.
  cbv zeta. unfold get_answers_cache.
  destruct (answers_key (new_CacheDirectory env) (site_id env) query tags) as [k|e];
    [|discriminate].
  intros [= <-].
  unfold get_sites_cache, get_site_icon_cache, new_CacheDirectory, path_join.
  cbn [answers_dir icons_dir cd_cachedir].
  rewrite <- !app_assoc.
  repeat split; intros E; apply app_inv_head in E; vm_compute in E; discriminate E.
Qed.

Lemma cache_paths_disjoint_witness :
  demo_path <> get_sites_cache demo_cd.
Proof.
  exact (proj1 (cache_paths_disjoint demo_env (lit "q") [] (lit "so") demo_path
                  demo_path_derived)).
Defined.

Lemma do_sites_load (rev : revision) (K : Collaborators) (cd : CacheDirectory)
    (env : EnvParams) (query : str) (w : world Site) :
  do_sites_body rev K cd env query w
  = match fs w !! get_sites_cache cd with
    | Some (File _ (WellFormed [])) =>
        (Ok [SitesNotCollected],
         mkWorld (fs w) (log w ++ [EvLoad (get_sites_cache cd)]))
    | Some (File _ (WellFormed (s :: rows))) =>
        let w1 := mkWorld (fs w) (log w ++ [EvLoad (get_sites_cache cd)]) in
        let sites :=
          if ignore_meta_sites env
          then List.filter (fun s => negb (is_meta s)) (s :: rows) else s :: rows in
        (let* sites :=
           (if truthy query then
              let* filtered_names :=
                request_fzf rev K query (dict_keys (dict_by name sites)) in
              lift (dict_get_all (dict_by name sites) filtered_names)
            else ret sites) in
         fun w =>
           let items := List.map (site_entry cd (fs w)) sites in
           let items := match items with [] => [NoMatchingSites] | _ => items end in
           (Ok items, w)) w1
    | Some (File _ (Malformed e)) =>
        (Raise e, mkWorld (fs w) (log w ++ [EvLoad (get_sites_cache cd)]))
    | _ => (Ok [SitesNotCollected], w)
    end.
Proof.
  unfold do_sites_body, bind at 1 2, is_file, is_file_in.
  destruct (fs w !! get_sites_cache cd) as [[mtime [rows|e]|mtime]|] eqn:E;
    try reflexivity.
  - unfold load_sites_from_cache, load_from_cache, bind at 1, emit. cbn [fs log].
    rewrite E. destruct rows; reflexivity.
  - unfold load_sites_from_cache, load_from_cache, bind at 1, emit. cbn [fs log].
    rewrite E. reflexivity.
Qed.

(** Without a sites file, or with one that holds no site, [do_sites] prints
    the one notice that the sites are not collected; fzf is not run and
    nothing is written. *)
Theorem do_sites_not_collected (rev : revision) (K : Collaborators)
    (cd : CacheDirectory) (env : EnvParams) (query : str) (w : world Site) :
  cached_sites cd w = Ok [] ->
  fst (do_sites rev K cd env query w) = [SitesNotCollected] /\
  fs (snd (do_sites rev K cd env query w)) = fs w /\
  List.filter is_fzf_event (log (snd (do_sites rev K cd env query w)))
  = List.filter is_fzf_event (log w).
Proof.
  unfold cached_sites, do_sites, sites_response_written. rewrite do_sites_load.
  destruct (fs w !! get_sites_cache cd) as [[mtime [[|s rows]|e]|mtime]|];
    try discriminate; intros _; cbn [fst snd fs log];
    rewrite ?List.filter_app, ?app_nil_r; auto.
Qed.

Lemma do_sites_not_collected_witness :
  fst (do_sites Script (demo_K 5 0 []) demo_cd demo_env (lit "x") (mkWorld ∅ []))
  = [SitesNotCollected].
Proof.
  apply (do_sites_not_collected Script (demo_K 5 0 []) demo_cd demo_env (lit "x")
           (mkWorld ∅ [])).
  reflexivity.
Defined.

Lemma dict_get_all_In {V : Type} (key : V -> list N) (l : list V) (ks : list (list N))
    (out : list V) :
  dict_get_all (dict_by key l) ks = Ok out -> Forall (fun v => In v l) out.
Proof.
  revert out. induction ks as [|k ks IH]; intros out; cbn [dict_get_all].
  - intros [= <-]. constructor.
  - unfold dict_by at 1. rewrite dict_get_fold. cbn [dict_get].
    destruct (List.find _ (rev l)) as [v|] eqn:Ev; [|discriminate].
    destruct (dict_get_all (dict_by key l) ks) as [vs|e]; [|discriminate].
    intros [= <-]. constructor; [|now apply IH].
    apply find_some in Ev. apply in_rev. exact (proj1 Ev).
Qed.

Lemma site_entries_In (cd : CacheDirectory) (m : gmap (list N) (node Site))
    (sites : list Site) (s : Site) (icon : str) :
  In (SiteItem s icon)
     (match List.map (site_entry cd m) sites with
      | [] => [NoMatchingSites]
      | _ => List.map (site_entry cd m) sites
      end) ->
  In s sites.
Proof.
  destruct sites as [|s0 sites]; [intros [H|[]]; discriminate|].
  cbn [List.map]. intros H.
  change (In (SiteItem s icon) (List.map (site_entry cd m) (s0 :: sites))) in H.
  apply in_map_iff in H. destruct H as (x & Hx & Hin).
  unfold site_entry in Hx. inversion Hx. subst. exact Hin.
Qed.

(** Every site [do_sites] lists is one of the cached sites, and when
    [ignore_meta_sites] is set none of them is a meta site, with or without a
    filter query. *)
Theorem do_sites_lists_cached_sites (rev : revision) (K : Collaborators)
    (cd : CacheDirectory) (env : EnvParams) (query : str) (w : world Site)
    (rows : list Site) (s : Site) (icon : str) :
  cached_sites cd w = Ok rows ->
  In (SiteItem s icon) (fst (do_sites rev K cd env query w)) ->
  In s rows /\ (ignore_meta_sites env = true -> is_meta s = false).
Proof.
  unfold cached_sites, do_sites, sites_response_written. rewrite do_sites_load.
  destruct (fs w !! get_sites_cache cd) as [[mtime [[|s0 rows0]|e]|mtime]|];
    try discriminate; intros [= <-]; cbn [fst];
    try (intros [H|[]]; discriminate).
  cbv zeta.
  set (sites := if ignore_meta_sites env
                then List.filter (fun s => negb (is_meta s)) (s0 :: rows0)
                else s0 :: rows0).
  assert (Hsites : forall x, In x sites ->
            In x (s0 :: rows0) /\ (ignore_meta_sites env = true -> is_meta x = false)).
  { intros x Hx. unfold sites in Hx. destruct (ignore_meta_sites env).
    - apply filter_In in Hx. destruct Hx as [Hin Hm]. split; [exact Hin|].
      intros _. now destruct (is_meta x).
    - split; [exact Hx|discriminate]. }
  unfold bind at 1. destruct (truthy query).
  - unfold bind, lift.
    destruct (request_fzf rev K query (dict_keys (dict_by name sites)) _)
      as [[names|e] w2]; cbn [fst]; [|intros [H|[]]; discriminate].
    destruct (dict_get_all (dict_by name sites) names) as [out|e] eqn:Eout;
      cbn [fst]; [|intros [H|[]]; discriminate].
    intros H. apply site_entries_In in H. apply Hsites.
    pose proof (dict_get_all_In name sites names out Eout) as Hall.
    rewrite List.Forall_forall in Hall. now apply Hall.
  - unfold ret. cbn [fst]. intros H. apply site_entries_In in H. now apply Hsites.
Qed.

Lemma do_sites_lists_cached_sites_witness :
  fst (do_sites Script (demo_K 5 0 []) demo_cd demo_env [] demo_sites_world)
  = [SiteItem (mkSite (lit "so") (lit "Stack Overflow") (lit "programmers") (lit "u1") false)
       (lit "icon.png")] /\
  In (mkSite (lit "so") (lit "Stack Overflow") (lit "programmers") (lit "u1") false)
     demo_sites.
Proof.
  assert (E : fst (do_sites Script (demo_K 5 0 []) demo_cd demo_env [] demo_sites_world)
    = [SiteItem (mkSite (lit "so") (lit "Stack Overflow") (lit "programmers") (lit "u1") false)
         (lit "icon.png")]) by (vm_compute; reflexivity).
  split; [exact E|].
  refine (proj1 (do_sites_lists_cached_sites Script (demo_K 5 0 []) demo_cd demo_env []
                   demo_sites_world demo_sites _ (lit "icon.png") _ _)).
  - reflexivity.
  - rewrite E. now left.
Defined.

(** With an empty query [do_sites] runs no fzf and lists the cached sites in
    the order of the file, meta sites left out if so configured; sites that
    share a name are all listed. *)
Theorem do_sites_empty_query (rev : revision) (K : Collaborators)
    (cd : CacheDirectory) (env : EnvParams) (w : world Site) (mtime : Q)
    (s : Site) (rows : list Site) :
  fs w !! get_sites_cache cd = Some (File mtime (WellFormed (s :: rows))) ->
  let sites := if ignore_meta_sites env
               then List.filter (fun s => negb (is_meta s)) (s :: rows)
               else s :: rows in
  do_sites rev K cd env [] w
  = (match sites with
     | [] => [NoMatchingSites]
     | _ => List.map (site_entry cd (fs w)) sites
     end,
     mkWorld (fs w) (log w ++ [EvLoad (get_sites_cache cd)])).
Proof.
  intros Hf. cbv zeta. unfold do_sites, sites_response_written.
  rewrite do_sites_load, Hf. cbv zeta. unfold bind, ret. cbn [truthy fs].
  destruct (if ignore_meta_sites env then _ else _); reflexivity.
Qed.

Lemma do_sites_empty_query_witness :
  fst (do_sites Packaged (demo_K 5 0 []) demo_cd demo_env [] demo_sites_world)
  = [SiteItem (mkSite (lit "so") (lit "Stack Overflow") (lit "programmers") (lit "u1") false)
       (lit "icon.png")].
Proof.
  rewrite (do_sites_empty_query Packaged (demo_K 5 0 []) demo_cd demo_env demo_sites_world 0%Q
             (mkSite (lit "so") (lit "Stack Overflow") (lit "programmers") (lit "u1") false)
             [mkSite (lit "meta.so") (lit "Meta Stack Overflow") (lit "users") (lit "u2") true]).
  - reflexivity.
  - reflexivity.
Defined.

Lemma append_page_kept (K : Collaborators) (sites : list Site) (items : list raw_site) :
  append_page K sites items = sites ++ kept_sites K items.
Proof.
  unfold append_page, kept_sites. revert sites.
  induction items as [|item items IH]; intros sites; cbn [fold_left List.filter List.map].
  - now rewrite app_nil_r.
  - rewrite IH. destruct (is_closed_beta item); cbn [negb List.map]; [reflexivity|].
    now rewrite <- app_assoc.
Qed.

Lemma sites_pages_run (rev : revision) (K : Collaborators)
    (get : list (string * param) -> result sites_response) (env : EnvParams)
    (pages : list (list raw_site)) :
  forall (fuel : nat) (page : Z) (sites : list Site) (w : world Site),
    pages <> [] -> (List.length pages <= fuel)%nat ->
    serves rev env get page pages ->
    sites_pages fuel rev K get env page sites w
    = (Ok (Some (sites ++ concat (List.map (kept_sites K) pages))),
       mkWorld (fs w) (log w ++ page_requests rev env page pages)).
Proof.
  induction pages as [|items pages IH]; intros fuel page sites w Hne Hfuel Hserves;
    [congruence|].
  destruct fuel as [|fuel]; [cbn in Hfuel; lia|].
  destruct Hserves as [Hget Hrest].
  cbn [sites_pages]. unfold bind at 1, emit. unfold bind at 1, lift. rewrite Hget.
  unfold bind at 1, get_key, ret. cbn [sr_items sr_has_more].
  unfold bind at 1. rewrite append_page_kept.
  destruct pages as [|items' pages].
  - cbn [List.map concat page_requests fs log]. now rewrite app_nil_r.
  - rewrite IH; [|discriminate|cbn in *; lia|exact Hrest].
    cbn [fs log List.map concat page_requests].
    now rewrite <- !app_assoc.
Qed.

(** When the server serves [n >= 1] pages and says [has_more] on all but the
    last, the refresh asks for pages 1 to [n] in order, once each, and returns
    the sites of all pages in order without those in closed beta. *)
Theorem sites_refresh_reads_all_pages (fuel : nat) (rev : revision) (K : Collaborators)
    (get : list (string * param) -> result sites_response) (env : EnvParams)
    (pages : list (list raw_site)) (w : world Site) :
  pages <> [] -> (List.length pages <= fuel)%nat ->
  serves rev env get 1 pages ->
  request_parse_sites_api fuel rev K get env w
  = (Ok (Some (concat (List.map (kept_sites K) pages))),
     mkWorld (fs w) (log w ++ page_requests rev env 1 pages)) /\
  forall s, In s (concat (List.map (kept_sites K) pages)) ->
    exists item, In item (concat pages) /\
                 rs_site_state item <> lit "closed_beta" /\ s = parse_site K item.
Proof.
  intros Hne Hfuel Hserves. split.
  - unfold request_parse_sites_api.
    now rewrite (sites_pages_run rev K get env pages fuel 1%Z [] w Hne Hfuel Hserves).
  - intros s Hs. apply in_concat in Hs. destruct Hs as (l & Hl & Hs).
    apply in_map_iff in Hl. destruct Hl as (items & <- & Hitems).
    unfold kept_sites in Hs. apply in_map_iff in Hs. destruct Hs as (item & <- & Hitem).
    apply filter_In in Hitem. destruct Hitem as [Hin Hstate].
    exists item. split; [|split; [|reflexivity]].
    + apply in_concat. eauto.
    + unfold is_closed_beta in Hstate. intros E.
      rewrite bool_decide_eq_true_2 in Hstate by exact E. discriminate.
Qed.

Lemma sites_refresh_reads_all_pages_witness :
  fst (request_parse_sites_api 5 Script (demo_K 5 0 []) demo_sites_get demo_env
         (mkWorld ∅ []))
  = Ok (Some demo_sites).
Proof.
  destruct (sites_refresh_reads_all_pages 5 Script (demo_K 5 0 []) demo_sites_get demo_env
              [demo_site_page1; demo_site_page2] (mkWorld ∅ [])) as [-> _].
  - discriminate.
  - cbn. lia.
  - cbn. auto.
  - reflexivity.
Defined.

Lemma sites_pages_step (fuel : nat) (rev : revision) (K : Collaborators)
    (get : list (string * param) -> result sites_response) (env : EnvParams)
    (page : Z) (sites : list Site) (w : world Site) (items : list raw_site)
    (has_more : bool) :
  get (sites_params rev page env) = Ok (mkSitesResponse (Some items) (Some has_more)) ->
  sites_pages (S fuel) rev K get env page sites w
  = let w1 := mkWorld (fs w)
                (log w ++ [EvRequest sites_url (sites_params rev page env)]) in
    if has_more
    then sites_pages fuel rev K get env (page + 1)%Z (append_page K sites items) w1
    else (Ok (Some (append_page K sites items)), w1).
Proof.
  intros Hget. cbn [sites_pages]. unfold bind, emit, lift, get_key, ret.
  cbn [fs log]. rewrite Hget. cbn [sr_items sr_has_more].
  destruct has_more; reflexivity.
Qed.

(** The refresh has no page limit of its own: against a server that reports
    [has_more] on every page it is still reading after any number of pages. *)
Theorem sites_refresh_unbounded (rev : revision) (K : Collaborators)
    (get : list (string * param) -> result sites_response) (env : EnvParams) :
  (forall params, exists items,
      get params = Ok (mkSitesResponse (Some items) (Some true))) ->
  forall (fuel : nat) (w : world Site),
    fst (request_parse_sites_api fuel rev K get env w) = Ok None /\
    List.length (log (snd (request_parse_sites_api fuel rev K get env w)))
    = (List.length (log w) + fuel)%nat.
Proof.
  intros Hget fuel. unfold request_parse_sites_api.
  generalize 1%Z as page. generalize (@nil Site) as sites.
  induction fuel as [|fuel IH]; intros sites page w.
  - cbn. split; [reflexivity|lia].
  - destruct (Hget (sites_params rev page env)) as [items Hitems].
    rewrite (sites_pages_step fuel rev K get env page sites w items true Hitems).
    cbv zeta.
    destruct (IH (append_page K sites items) (page + 1)%Z
                 (mkWorld (fs w) (log w ++ [EvRequest sites_url (sites_params rev page env)])))
      as [H1 H2].
    split; [exact H1|]. rewrite H2. cbn [log]. rewrite length_app. cbn. lia.
Qed.

Lemma sites_refresh_unbounded_witness :
  fst (request_parse_sites_api 7 Script (demo_K 5 0 [])
         (fun _ => Ok (mkSitesResponse (Some demo_site_page1) (Some true))) demo_env
         (mkWorld ∅ []))
  = Ok None.
Proof.
  refine (proj1 (sites_refresh_unbounded Script (demo_K 5 0 [])
                   (fun _ => Ok (mkSitesResponse (Some demo_site_page1) (Some true)))
                   demo_env _ 7%nat (mkWorld ∅ []))).
  intros params. exists demo_site_page1. reflexivity.
Defined.

Lemma do_search_no_filter_no_fzf (rev : revision) (K : Collaborators)
    (cd : CacheDirectory) (env : EnvParams) (query : str) (tags : list (list N))
    (w : world Answer) :
  List.filter is_fzf_event (log (snd (do_search rev K cd env query tags [] w)))
  = List.filter is_fzf_event (log w).
Proof.
  unfold do_search, response_written, do_search_body, bind.
  pose proof (resolve_answers_no_fzf rev K cd env query tags w) as Hlog.
  destruct (resolve_answers rev K cd env query tags w) as [[[a q]|e] w1];
    cbn [snd narrow truthy ret render] in *; exact Hlog.
Qed.

(** A search argument without ["//"] never starts fzf: the secondary filter
    is empty, whatever else the argument holds. *)
Theorem search_without_double_slash_runs_no_fzf (rev : revision) (K : Collaborators)
    (cd : CacheDirectory) (env : EnvParams) (arg : str) (w : world Answer) :
  contains (lit "//") (strip arg) = false ->
  List.filter is_fzf_event (log (snd (search_action rev K cd env arg w)))
  = List.filter is_fzf_event (log w).
Proof.
  intros Hc. unfold search_action. rewrite parse_via_terms_and_filter.
  assert (Hsnd : snd (terms_and_filter arg) = []).
  { unfold terms_and_filter. cbv zeta. rewrite Hc.
    destruct (endswith (lit "/") (strip arg)); reflexivity. }
  rewrite Hsnd. apply do_search_no_filter_no_fzf.
Qed.

Lemma search_without_double_slash_runs_no_fzf_witness :
  List.filter is_fzf_event
    (log (snd (search_action Script (demo_K 5 0 []) demo_cd demo_env (lit "q #t /")
                 (mkWorld ∅ []))))
  = [].
Proof.
  apply (search_without_double_slash_runs_no_fzf Script (demo_K 5 0 []) demo_cd demo_env
           (lit "q #t /") (mkWorld ∅ [])).
  reflexivity.
Defined.

(** ** The two revisions *)




